(** * Verdict Arena: a shallow embedding of [contracts/verdict_arena.py]

    The contract keeps one weekly debate round: the host opens it, players
    submit an argument for one of two sides, the host has every argument
    scored by an oracle, and two leaderboards are derived from the stored
    scores.  Storage is a record; every method is a computation in a state
    and exception monad over that record. *)

From Stdlib Require Import ZArith QArith String Ascii List Lia DecimalString Sorted.
From stdpp Require Import base option list gmap strings.

Local Open Scope string_scope.
Local Open Scope list_scope.
Local Open Scope Z_scope.

#[local] Set Warnings "-register-all".

(** ** Python values used by the contract *)

(** Python [str]: one [ascii] per character (the 8-bit part of the code
    points), so [String.length] is [len]. *)

Module Py.

(** [s[i:j]] for [0 <= i <= j]: slicing never raises, it truncates. *)
Definition slice (i j : nat) (s : string) : string :=
  String.substring i (j - i) s.

(** The blanks [int()] strips from the ends of its argument: the ASCII
    white space, and the two 8-bit characters (U+0085 and U+00A0) that
    Python turns into blanks before it parses.  Characters 28 to 31 are not
    among them, although [str.isspace] holds of them. *)
Definition is_space (c : ascii) : bool :=
  let n := nat_of_ascii c in
  ((9 <=? n)%nat && (n <=? 13)%nat) || (n =? 32)%nat
  || (n =? 133)%nat || (n =? 160)%nat.

Definition is_digit (c : ascii) : bool :=
  let n := nat_of_ascii c in (48 <=? n)%nat && (n <=? 57)%nat.

Definition digit_val (c : ascii) : Z := Z.of_nat (nat_of_ascii c) - 48.

Fixpoint lstrip (s : list ascii) : list ascii :=
  match s with
  | c :: s' => if is_space c then lstrip s' else s
  | [] => []
  end.

Definition strip (s : list ascii) : list ascii :=
  rev (lstrip (rev (lstrip s))).

(** Decimal digits, single underscores allowed between two digits. *)
Fixpoint digits (acc : Z) (after_digit : bool) (s : list ascii) : option Z :=
  match s with
  | [] => if after_digit then Some acc else None
  | c :: s' =>
      if is_digit c then digits (10 * acc + digit_val c) true s'
      else if Ascii.eqb c "_"%char
           then (if after_digit then digits acc false s' else None)
           else None
  end.

(** [sys.get_int_max_str_digits()], at its default: [int()] refuses a
    text with more digits. *)
Definition max_str_digits : nat := 4300.

(** The digits of a text; sign and underscores do not count. *)
Definition count_digits (s : list ascii) : nat :=
  length (List.filter is_digit s).

(** [int(s)] for a [str] argument, base 10; [None] is [ValueError]. *)
Definition int_of_str (s : string) : option Z :=
  match strip (list_ascii_of_string s) with
  | c :: s' =>
      if (max_str_digits <? count_digits (c :: s'))%nat then None
      else if Ascii.eqb c "-"%char then Z.opp <$> digits 0 false s'
      else if Ascii.eqb c "+"%char then digits 0 false s'
      else digits 0 false (c :: s')
  | [] => None
  end.

(** [str(n)] for an [int]. *)
Definition str_of_int (z : Z) : string :=
  NilZero.string_of_int (Z.to_int z).

(** [f"{n:02d}"]: at least two characters, zero padded after the sign. *)
Definition str_of_int_02d (z : Z) : string :=
  if (0 <=? z) && (z <? 10) then String.append "0" (str_of_int z) else str_of_int z.

(** [str.upper] on the 8-bit alphabet's ASCII letters. *)
Definition upper_char (c : ascii) : ascii :=
  let n := nat_of_ascii c in
  if (97 <=? n)%nat && (n <=? 122)%nat then ascii_of_nat (n - 32) else c.

Fixpoint upper (s : string) : string :=
  match s with
  | EmptyString => EmptyString
  | String c s' => String (upper_char c) (upper s')
  end.

(** [s.split(sep, 1)]: the text before the first [sep] and, when [sep]
    occurs, the text after it. *)
Fixpoint split_once (sep : string) (s : string) : string * option string :=
  if String.prefix sep s
  then (EmptyString, Some (String.substring (String.length sep)
                             (String.length s - String.length sep) s))
  else match s with
       | EmptyString => (EmptyString, None)
       | String c s' =>
           let '(a, b) := split_once sep s' in (String c a, b)
       end.

End Py.

(** ** The calendar: [datetime.date(y, m, d).isocalendar()] *)

Module Calendar.

Definition is_leap (y : Z) : bool :=
  (y mod 4 =? 0) && (negb (y mod 100 =? 0) || (y mod 400 =? 0)).

Definition days_in_month (y m : Z) : Z :=
  if m =? 2 then (if is_leap y then 29 else 28)
  else if (m =? 4) || (m =? 6) || (m =? 9) || (m =? 11) then 30 else 31.

Definition days_before_year (year : Z) : Z :=
  let y := year - 1 in y * 365 + y / 4 - y / 100 + y / 400.

Fixpoint days_before_month_aux (y : Z) (k : nat) : Z :=
  match k with
  | O => 0
  | S k' => days_before_month_aux y k' + days_in_month y (Z.of_nat k)
  end.

(** Days of the year before the first day of month [m]. *)
Definition days_before_month (y m : Z) : Z :=
  days_before_month_aux y (Z.to_nat (m - 1)).

Definition ymd2ord (y m d : Z) : Z :=
  days_before_year y + days_before_month y m + d.

Definition isoweek1monday (year : Z) : Z :=
  let firstday := ymd2ord year 1 1 in
  let firstweekday := (firstday + 6) mod 7 in
  let week1monday := firstday - firstweekday in
  if 3 <? firstweekday then week1monday + 7 else week1monday.

(** [datetime.date(y, m, d)]: [None] is [ValueError]. *)
Definition date (y m d : Z) : option (Z * Z * Z) :=
  if (1 <=? y) && (y <=? 9999) && (1 <=? m) && (m <=? 12)
     && (1 <=? d) && (d <=? days_in_month y m)
  then Some (y, m, d) else None.

(** [d.isocalendar()]: ISO year, ISO week, ISO weekday. *)
Definition isocalendar (ymd : Z * Z * Z) : Z * Z * Z :=
  let '(year, month, day) := ymd in
  let today := ymd2ord year month day in
  let week := (today - isoweek1monday year) / 7 in
  let wday := (today - isoweek1monday year) mod 7 in
  if week <? 0 then
    let w1 := isoweek1monday (year - 1) in
    (year - 1, (today - w1) / 7 + 1, (today - w1) mod 7 + 1)
  else if (52 <=? week) && (isoweek1monday (year + 1) <=? today) then
    (year + 1, 1, wday + 1)
  else (year, week + 1, wday + 1).

End Calendar.

(** ** JSON values, as [json.loads] returns them *)

(** A Python [float]: its exact value when finite.  A decoded object is
    the list of the fields of the [dict], each key once. *)
Inductive pyfloat := Finite (q : Q) | Infinite | NotANumber.

Inductive json :=
| JNull
| JBool (b : bool)
| JInt (z : Z)
| JFloat (f : pyfloat)
| JStr (s : string)
| JArr (items : list json)
| JObj (fields : list (string * json)).

(** ** Failures *)

(** Python exceptions other than the contract's own assertions. *)
Inductive pyexc :=
| ValueError | TypeError | KeyError | AttributeError | OverflowError
| JSONDecodeError
| InvalidAddress.      (* [Address(text)] refuses the text *)

(** Each [assert] of the contract under the name the design gives its
    failure; the oracle's own failures; and Python's exceptions. *)
Inductive error :=
| Unauthorized         (* "Only host can open rounds", "Only host can trigger judging" *)
| RoundAlreadyOpen     (* "A round is already open" *)
| PeriodAlreadyPlayed  (* "Round for this week already played" *)
| RoundNotOpen         (* "No round is currently open", "No open round to judge" *)
| AlreadyJudged        (* "Judging is already complete for this round", "Already judged" *)
| InvalidSide          (* "side must be 'a' or 'b'" *)
| TextTooShort         (* "Argument too short" *)
| TextTooLong          (* "Argument too long" *)
| NoSubmissions        (* "No submissions to judge" *)
| ConsensusDivergence
| ConsensusRejected
| OracleUnavailable
| PyError (x : pyexc).

Inductive outcome (A : Type) :=
| Ok (a : A)
| Raise (e : error).
Arguments Ok {A} a.
Arguments Raise {A} e.

(** ** Storage *)

(** An [Address] is 20 bytes; here the number they spell. *)
Definition Address := N.

Record State := mkState {
  current_week : string;
  current_topic : string;
  current_side_a : string;
  current_side_b : string;
  submissions : gmap N string;
  scores : gmap N Z;
  all_time_xp : gmap N Z;
  player_list : list Address;
  round_open : bool;
  judging_done : bool;
  host : Address
}.

(** [gl.message]: who calls and when. *)
Record message := mkMessage {
  sender_address : Address;
  datetime : string
}.

(** [__init__]: the collections start empty. *)
Definition init (msg : message) : State :=
  {| current_week := ""; current_topic := ""; current_side_a := "";
     current_side_b := ""; submissions := ∅; scores := ∅; all_time_xp := ∅;
     player_list := []; round_open := false; judging_done := false;
     host := sender_address msg |}.

Definition set_current_week (v : string) (s : State) : State :=
  mkState v (current_topic s) (current_side_a s) (current_side_b s)
    (submissions s) (scores s) (all_time_xp s) (player_list s)
    (round_open s) (judging_done s) (host s).

Definition set_current_topic (v : string) (s : State) : State :=
  mkState (current_week s) v (current_side_a s) (current_side_b s)
    (submissions s) (scores s) (all_time_xp s) (player_list s)
    (round_open s) (judging_done s) (host s).

Definition set_current_side_a (v : string) (s : State) : State :=
  mkState (current_week s) (current_topic s) v (current_side_b s)
    (submissions s) (scores s) (all_time_xp s) (player_list s)
    (round_open s) (judging_done s) (host s).

Definition set_current_side_b (v : string) (s : State) : State :=
  mkState (current_week s) (current_topic s) (current_side_a s) v
    (submissions s) (scores s) (all_time_xp s) (player_list s)
    (round_open s) (judging_done s) (host s).

Definition set_submissions (v : gmap N string) (s : State) : State :=
  mkState (current_week s) (current_topic s) (current_side_a s)
    (current_side_b s) v (scores s) (all_time_xp s) (player_list s)
    (round_open s) (judging_done s) (host s).

Definition set_scores (v : gmap N Z) (s : State) : State :=
  mkState (current_week s) (current_topic s) (current_side_a s)
    (current_side_b s) (submissions s) v (all_time_xp s) (player_list s)
    (round_open s) (judging_done s) (host s).

Definition set_all_time_xp (v : gmap N Z) (s : State) : State :=
  mkState (current_week s) (current_topic s) (current_side_a s)
    (current_side_b s) (submissions s) (scores s) v (player_list s)
    (round_open s) (judging_done s) (host s).

Definition set_player_list (v : list Address) (s : State) : State :=
  mkState (current_week s) (current_topic s) (current_side_a s)
    (current_side_b s) (submissions s) (scores s) (all_time_xp s) v
    (round_open s) (judging_done s) (host s).

Definition set_round_open (v : bool) (s : State) : State :=
  mkState (current_week s) (current_topic s) (current_side_a s)
    (current_side_b s) (submissions s) (scores s) (all_time_xp s)
    (player_list s) v (judging_done s) (host s).

Definition set_judging_done (v : bool) (s : State) : State :=
  mkState (current_week s) (current_topic s) (current_side_a s)
    (current_side_b s) (submissions s) (scores s) (all_time_xp s)
    (player_list s) (round_open s) v (host s).

(** ** Method bodies: state and exceptions *)

(** A method body runs on the contract's storage and either returns or
    raises; the state it gives back is the storage as the body left it,
    also when it raises. *)
Definition Tx (A : Type) : Type := State -> outcome A * State.

Definition ret {A} (a : A) : Tx A := fun s => (Ok a, s).

Definition raise {A} (e : error) : Tx A := fun s => (Raise e, s).

Definition bind {A B} (c : Tx A) (k : A -> Tx B) : Tx B :=
  fun s => match c s with
           | (Ok a, s') => k a s'
           | (Raise e, s') => (Raise e, s')
           end.

Definition read {A} (f : State -> A) : Tx A := fun s => (Ok (f s), s).

Definition update (f : State -> State) : Tx unit := fun s => (Ok tt, f s).

Notation "'let*' x ':=' c 'in' k" := (bind c (fun x => k))
  (at level 10, x name, c at level 100, k at level 200).

(** [assert cond, msg]. *)
Definition assert (cond : bool) (e : error) : Tx unit :=
  if cond then ret tt else raise e.

(** A value that may have raised, lifted into a body. *)
Definition lift {A} (o : outcome A) : Tx A :=
  match o with Ok a => ret a | Raise e => raise e end.

(** [for x in xs: body(x)]. *)
Fixpoint for_each {A} (xs : list A) (body : A -> Tx unit) : Tx unit :=
  match xs with
  | [] => ret tt
  | x :: xs' => let* _ := body x in for_each xs' body
  end.

(** ** Oracles *)

(** What an equivalence principle hands back to the contract: a failure of
    the runtime, or the text the validators agreed on.  The text is only
    ever passed to [json.loads], so it is carried decoded: [None] is text
    that [json.loads] rejects. *)
Inductive reply :=
| Failed (e : error)
| Agreed (decoded : option json).

(** What [score_argument] puts into its prompt. *)
Record request := mkRequest {
  req_topic : string;
  req_position : string;
  req_argument : string
}.

Definition eq_principle (r : reply) : Tx (option json) :=
  match r with
  | Failed e => raise e
  | Agreed text => ret text
  end.

Definition json_loads (text : option json) : Tx json :=
  match text with
  | Some j => ret j
  | None => raise (PyError JSONDecodeError)
  end.

(** ** Python operations on decoded JSON *)

Fixpoint assoc (k : string) (fields : list (string * json)) : option json :=
  match fields with
  | [] => None
  | (k', v) :: rest => if String.eqb k k' then Some v else assoc k rest
  end.

(** [d[k]]. *)
Definition subscript (d : json) (k : string) : outcome json :=
  match d with
  | JObj fields =>
      match assoc k fields with
      | Some v => Ok v
      | None => Raise (PyError KeyError)
      end
  | _ => Raise (PyError TypeError)
  end.

(** [d.get(k, dflt)]: only a [dict] has [get]. *)
Definition dict_get (d : json) (k : string) (dflt : json) : outcome json :=
  match d with
  | JObj fields => Ok (default dflt (assoc k fields))
  | _ => Raise (PyError AttributeError)
  end.

(** [int(v)]. *)
Definition py_int (v : json) : outcome Z :=
  match v with
  | JInt z => Ok z
  | JBool b => Ok (if b then 1 else 0)
  | JFloat (Finite q) => Ok (Z.quot (Qnum q) (Z.pos (Qden q)))
  | JFloat Infinite => Raise (PyError OverflowError)
  | JFloat NotANumber => Raise (PyError ValueError)
  | JStr s =>
      match Py.int_of_str s with
      | Some z => Ok z
      | None => Raise (PyError ValueError)
      end
  | JNull | JArr _ | JObj _ => Raise (PyError TypeError)
  end.

(** A [str] field of the storage only takes a [str]. *)
Definition as_str (v : json) : outcome string :=
  match v with
  | JStr s => Ok s
  | _ => Raise (PyError TypeError)
  end.

(** A [u256] slot holds 32 bytes: a value outside [0, 2^256) cannot be
    stored. *)
Definition fits_u256 (v : Z) : bool := (0 <=? v) && (v <? 2 ^ 256).

Definition check_u256 (v : Z) : Tx unit :=
  assert (fits_u256 v) (PyError OverflowError).

(** ** [open_round] *)

(** The ISO week string of [gl.message.datetime]: ["2025-03-15T12:00:00Z"]
    gives ["2025-W11"]. *)
Definition week_of (dt : string) : outcome string :=
  let date_part := Py.slice 0 10 dt in
  match Py.int_of_str (Py.slice 0 4 date_part) with
  | None => Raise (PyError ValueError)
  | Some year =>
  match Py.int_of_str (Py.slice 5 7 date_part) with
  | None => Raise (PyError ValueError)
  | Some month =>
  match Py.int_of_str (Py.slice 8 10 date_part) with
  | None => Raise (PyError ValueError)
  | Some day =>
  match Calendar.date year month day with
  | None => Raise (PyError ValueError)
  | Some d =>
      let '(iso_year, iso_week, _) := Calendar.isocalendar d in
      Ok (String.append (Py.str_of_int iso_year)
            (String.append "-W" (Py.str_of_int_02d iso_week)))
  end end end end.

(** [del m[k]]: a missing key raises. *)
Definition del_submission (addr : Address) : Tx unit :=
  let* subs := read submissions in
  match subs !! addr with
  | Some _ => update (set_submissions (delete addr subs))
  | None => raise (PyError KeyError)
  end.

Definition del_score (addr : Address) : Tx unit :=
  let* sc := read scores in
  match sc !! addr with
  | Some _ => update (set_scores (delete addr sc))
  | None => raise (PyError KeyError)
  end.

(** [while len(self.player_list) > 0: self.player_list.pop()]; [fuel]
    bounds the number of turns, and the length of the list is enough. *)
Fixpoint pop_all (fuel : nat) : Tx unit :=
  match fuel with
  | O => ret tt
  | S fuel' =>
      let* players := read player_list in
      if (0 <? length players)%nat
      then let* _ := update (set_player_list (removelast players)) in
           pop_all fuel'
      else ret tt
  end.

Definition open_round (msg : message) (topic_oracle : reply) : Tx string :=
  let* h := read host in
  let* _ := assert (N.eqb (sender_address msg) h) Unauthorized in
  let* is_open := read round_open in
  let* _ := assert (negb is_open) RoundAlreadyOpen in
  let* week_str := lift (week_of (datetime msg)) in
  let* week := read current_week in
  let* _ := assert (negb (String.eqb week_str week)) PeriodAlreadyPlayed in
  let* _ := update (set_current_week week_str) in
  let* topic_json_str := eq_principle topic_oracle in
  let* topic_data := json_loads topic_json_str in
  let* topic := lift (subscript topic_data "topic") in
  let* topic := lift (as_str topic) in
  let* _ := update (set_current_topic topic) in
  let* side_a := lift (subscript topic_data "side_a") in
  let* side_a := lift (as_str side_a) in
  let* _ := update (set_current_side_a side_a) in
  let* side_b := lift (subscript topic_data "side_b") in
  let* side_b := lift (as_str side_b) in
  let* _ := update (set_current_side_b side_b) in
  let* players := read player_list in
  let* _ := for_each players (fun addr =>
              let* _ := del_submission addr in del_score addr) in
  let* players := read player_list in
  let* _ := pop_all (length players) in
  let* _ := update (set_round_open true) in
  let* _ := update (set_judging_done false) in
  let* topic := read current_topic in
  ret (String.append "Round "
         (String.append week_str (String.append " opened! Topic: " topic))).

(** ** [submit_argument] *)

Definition submit_argument (msg : message) (side argument : string)
  : Tx string :=
  let* is_open := read round_open in
  let* _ := assert is_open RoundNotOpen in
  let* judged := read judging_done in
  let* _ := assert (negb judged) AlreadyJudged in
  let* _ := assert (String.eqb side "a" || String.eqb side "b") InvalidSide in
  let* _ := assert (20 <=? String.length argument)%nat TextTooShort in
  let* _ := assert (String.length argument <=? 600)%nat TextTooLong in
  let player := sender_address msg in
  let* subs := read submissions in
  let* _ := match subs !! player with
            | None => let* players := read player_list in
                      update (set_player_list (players ++ [player]))
            | Some _ => ret tt
            end in
  let* subs := read submissions in
  let* _ := update (set_submissions
              (<[player := String.append "SIDE_"
                   (String.append (Py.upper side)
                      (String.append "::" argument))]> subs)) in
  ret "Argument submitted! Wait for the host to call judge_all().".

(** ** [judge_all] *)

(** [min(max(n, 0), 100)]. *)
Definition clamp (n : Z) : Z := Z.min (Z.max n 0) 100.

(** The scoring request for one stored submission. *)
Definition request_of (topic side_a side_b raw : string) : request :=
  let '(side_tag, rest) := Py.split_once "::" raw in
  let argument := default "" rest in
  let position := if String.eqb side_tag "SIDE_A" then side_a else side_b in
  mkRequest topic position argument.

(** The loop over the roster.  [oracle k req] is the outcome of the [k]-th
    call of [gl.eq_principle_prompt_non_comparative] in this transaction. *)
Fixpoint judge_loop (oracle : nat -> request -> reply)
    (topic side_a side_b : string) (players : list Address) (k : nat)
  : Tx unit :=
  match players with
  | [] => ret tt
  | player :: rest =>
      let* subs := read submissions in
      let raw := default "" (subs !! player) in
      if String.eqb raw ""
      then judge_loop oracle topic side_a side_b rest k
      else
        let* scored_str :=
          eq_principle (oracle k (request_of topic side_a side_b raw)) in
        let* scored := json_loads scored_str in
        let* total := lift (dict_get scored "total" (JInt 0)) in
        let* n := lift (py_int total) in
        let xp := clamp n in
        let* _ := check_u256 xp in
        let* sc := read scores in
        let* _ := update (set_scores (<[player := xp]> sc)) in
        let* xps := read all_time_xp in
        let current_all_time := default 0 (xps !! player) in
        let* _ := check_u256 (current_all_time + xp) in
        let* _ := update (set_all_time_xp
                    (<[player := current_all_time + xp]> xps)) in
        judge_loop oracle topic side_a side_b rest (S k)
  end.

Definition judge_all (msg : message) (oracle : nat -> request -> reply)
  : Tx string :=
  let* h := read host in
  let* _ := assert (N.eqb (sender_address msg) h) Unauthorized in
  let* is_open := read round_open in
  let* _ := assert is_open RoundNotOpen in
  let* judged := read judging_done in
  let* _ := assert (negb judged) AlreadyJudged in
  let* players := read player_list in
  let* _ := assert (0 <? length players)%nat NoSubmissions in
  let* topic := read current_topic in
  let* side_a := read current_side_a in
  let* side_b := read current_side_b in
  let* _ := judge_loop oracle topic side_a side_b players 0 in
  let* _ := update (set_round_open false) in
  let* _ := update (set_judging_done true) in
  ret "Judging complete! Call get_leaderboard() to see results.".

(** ** Read methods *)

(** [list.sort(key=..., reverse=True)]: descending by key, and stable
    (entries with equal keys keep their order). *)
Fixpoint insert_desc {A} (key : A -> Z) (x : A) (l : list A) : list A :=
  match l with
  | [] => [x]
  | y :: l' => if key y <=? key x then x :: l
               else y :: insert_desc key x l'
  end.

Definition sort_reverse {A} (key : A -> Z) (l : list A) : list A :=
  foldr (insert_desc key) [] l.

(** A leaderboard row: [{"address": ..., "xp" or "lifetime_xp": ...,
    "rank": ...}]. *)
Record entry := mkEntry {
  entry_address : string;
  entry_xp : Z;
  entry_rank : Z
}.

(** [for i, entry in enumerate(entries): entry["rank"] = i + 1]. *)
Definition add_rank (entries : list (string * Z)) : list entry :=
  imap (fun i e => mkEntry (fst e) (snd e) (Z.of_nat i + 1)) entries.

Record leaderboard := mkLeaderboard {
  lb_week : string;
  lb_topic : string;
  lb_entries : list entry
}.

Record round_info := mkRoundInfo {
  info_week : string;
  info_topic : string;
  info_side_a : string;
  info_side_b : string;
  info_round_open : bool;
  info_judging_done : bool;
  info_player_count : nat
}.

Record my_score := mkMyScore {
  ms_address : string;
  ms_this_week_xp : Z;
  ms_lifetime_xp : Z
}.

Section Views.

(** [Address.as_hex] and the constructor [Address(text)] belong to the
    runtime library. *)
Context (as_hex : Address -> string).
Context (Address_of_str : string -> option Address).

Definition get_leaderboard : Tx leaderboard :=
  let* players := read player_list in
  let* sc := read scores in
  let entries := map (fun player => (as_hex player, default 0 (sc !! player)))
                   players in
  let entries := sort_reverse snd entries in
  let* week := read current_week in
  let* topic := read current_topic in
  ret (mkLeaderboard week topic (add_rank entries)).

Definition get_all_time_leaderboard : Tx (list entry) :=
  let* players := read player_list in
  let* xps := read all_time_xp in
  let entries := map (fun player => (as_hex player, default 0 (xps !! player)))
                   players in
  let entries := sort_reverse snd entries in
  ret (add_rank entries).

Definition get_round_info : Tx round_info :=
  fun s => (Ok (mkRoundInfo (current_week s) (current_topic s)
                  (current_side_a s) (current_side_b s) (round_open s)
                  (judging_done s) (length (player_list s))), s).

Definition get_my_score (player_address : string) : Tx my_score :=
  match Address_of_str player_address with
  | None => raise (PyError InvalidAddress)
  | Some addr =>
      let* sc := read scores in
      let xp := default 0 (sc !! addr) in
      let* xps := read all_time_xp in
      let lifetime := default 0 (xps !! addr) in
      ret (mkMyScore player_address xp lifetime)
  end.

End Views.

(** ** Transactions *)

(** Modelled from the spec: the runtime behind [@gl.public.write] is not
    part of the contract's source.  Each state-mutating operation is applied
    atomically per call: a call that returns persists the storage its body
    left, a call that raises persists nothing. *)
Definition public_write {A} (body : Tx A) : Tx A :=
  fun s => match body s with
           | (Ok a, s') => (Ok a, s')
           | (Raise e, _) => (Raise e, s)
           end.

(** One call of a write method, with what the outside world answers
    during it. *)
Inductive call :=
| OpenRound (msg : message) (topic_oracle : reply)
| SubmitArgument (msg : message) (side argument : string)
| JudgeAll (msg : message) (oracle : nat -> request -> reply).

Definition exec (c : call) : Tx string :=
  match c with
  | OpenRound msg topic_oracle => public_write (open_round msg topic_oracle)
  | SubmitArgument msg side argument =>
      public_write (submit_argument msg side argument)
  | JudgeAll msg oracle => public_write (judge_all msg oracle)
  end.

(** The storage after a sequence of calls. *)
Fixpoint run (cs : list call) (s : State) : State :=
  match cs with
  | [] => s
  | c :: cs' => run cs' (snd (exec c s))
  end.

(** ** Derived notions used in the statements *)

(** The call raises [e]. *)
Definition fails_with {A} (c : Tx A) (s : State) (e : error) : Prop :=
  fst (c s) = Raise e.

(** Period and lifetime score of a participant, 0 when absent. *)
Definition period_score (s : State) (p : Address) : Z :=
  default 0 (scores s !! p).

Definition lifetime_score (s : State) (p : Address) : Z :=
  default 0 (all_time_xp s !! p).

(** Participants the judging loop scores: roster members whose stored
    submission is not empty, in roster order. *)
Definition has_submission (s : State) (p : Address) : bool :=
  negb (String.eqb (default "" (submissions s !! p)) "").

Definition judged_players (s : State) : list Address :=
  List.filter (has_submission s) (player_list s).

(** The request the loop builds for participant [p]. *)
Definition request_for (s : State) (p : Address) : request :=
  request_of (current_topic s) (current_side_a s) (current_side_b s)
    (default "" (submissions s !! p)).

(** What [submit_argument] stores for a side and a text. *)
Definition stored_text (side argument : string) : string :=
  String.append "SIDE_"
    (String.append (Py.upper side) (String.append "::" argument)).

Definition valid_side (side : string) : Prop := side = "a" \/ side = "b".

Definition valid_text (argument : string) : Prop :=
  (20 <= String.length argument <= 600)%nat.

(** The roster lists exactly the keys of [submissions], each once. *)
Definition roster_inv (s : State) : Prop :=
  NoDup (player_list s)
  /\ forall p, p ∈ player_list s <-> is_Some (submissions s !! p).

(** The period score a reply leads to, or the failure it causes: the pure
    part of one turn of the loop. *)
Definition reply_score (r : reply) : outcome Z :=
  match r with
  | Failed e => Raise e
  | Agreed None => Raise (PyError JSONDecodeError)
  | Agreed (Some scored) =>
      match dict_get scored "total" (JInt 0) with
      | Raise e => Raise e
      | Ok total =>
          match py_int total with
          | Raise e => Raise e
          | Ok n => Ok (clamp n)
          end
      end
  end.

(** Storage that differs from [s] in the two score maps at most. *)
Definition only_scores_changed (s s' : State) : Prop :=
  s' = set_all_time_xp (all_time_xp s') (set_scores (scores s') s).

(** The storage after participant [p] has been given [xp]. *)
Definition credit (p : Address) (xp : Z) (s : State) : State :=
  set_all_time_xp (<[p := lifetime_score s p + xp]> (all_time_xp s))
    (set_scores (<[p := xp]> (scores s)) s).

(** [c] never changes the part [f] of the storage, whether it returns or
    raises. *)
Definition preserves {A B} (f : State -> A) (c : Tx B) : Prop :=
  forall s, f (snd (c s)) = f s.

(** Whether a call is a call of [open_round]. *)
Definition is_open_round (c : call) : bool :=
  match c with OpenRound _ _ => true | _ => false end.

(** Each element of [l] once, at the place of its first occurrence. *)
Definition first_seen (l : list Address) : list Address :=
  reverse (remove_dups (reverse l)).

(** A call of [submit_argument] given by caller, side and text. *)
Definition submit_call (c : message * string * string) : call :=
  SubmitArgument (fst (fst c)) (snd (fst c)) (snd c).

(** Who makes that call. *)
Definition submitter (c : message * string * string) : Address :=
  sender_address (fst (fst c)).

(** [x] occurs at some place in [l] and [y] at a later one. *)
Definition comes_before {A} (l : list A) (x y : A) : Prop :=
  exists l1 l2 l3, l = l1 ++ x :: l2 ++ y :: l3.

(** The address and score of a leaderboard row. *)
Definition row (e : entry) : string * Z := (entry_address e, entry_xp e).

(** The roster paired with a score per participant, in roster order. *)
Definition roster_rows (as_hex : Address -> string) (score : Address -> Z)
    (players : list Address) : list (string * Z) :=
  map (fun p => (as_hex p, score p)) players.

(** ** States the contract can be in *)

(** The storage a sequence of calls leads to from deployment. *)
Definition reachable (s : State) : Prop :=
  exists msg0 cs, s = run cs (init msg0).

(** What every call keeps true of the storage: the roster invariant; no
    stored text is empty; only roster members have a period score, it lies
    in [0, 100] and is part of their lifetime score; lifetime scores are
    not negative; once the round is closed every roster member has a
    period score; and the two flags are never both set. *)
Definition state_inv (s : State) : Prop :=
  roster_inv s
  /\ (forall p v, submissions s !! p = Some v -> v <> "")
  /\ (forall p v, scores s !! p = Some v ->
        p ∈ player_list s /\ 0 <= v <= 100 /\ v <= lifetime_score s p)
  /\ (forall p v, all_time_xp s !! p = Some v -> 0 <= v)
  /\ (round_open s = false ->
        forall p, p ∈ player_list s -> is_Some (scores s !! p))
  /\ (round_open s && judging_done s = false).

(** The three texts [open_round] reads from the agreed topic: present
    when the reply is a JSON object whose ["topic"], ["side_a"] and
    ["side_b"] are strings. *)
Definition topic_fields (r : reply) : option (string * string * string) :=
  match r with
  | Agreed (Some (JObj fields)) =>
      match assoc "topic" fields, assoc "side_a" fields,
            assoc "side_b" fields with
      | Some (JStr t), Some (JStr a), Some (JStr b) => Some (t, a, b)
      | _, _, _ => None
      end
  | _ => None
  end.

(** What [open_round] returns for a week and a topic. *)
Definition opened_text (week topic : string) : string :=
  String.append "Round "
    (String.append week (String.append " opened! Topic: " topic)).

(** ** A worked round *)

Module Scenario.

Definition host_addr : Address := 1%N.
Definition alice : Address := 2%N.
Definition bob : Address := 3%N.

Definition at_time (who : Address) (dt : string) : message :=
  mkMessage who dt.

Definition week10 : string := "2025-03-05T12:00:00Z".
Definition week11 : string := "2025-03-15T12:00:00Z".

Definition topic_reply : reply :=
  Agreed (Some (JObj [("side_a", JStr "tabs"); ("side_b", JStr "spaces");
                      ("topic", JStr "Tabs or spaces")])).

Definition text25 : string := "Tabs adapt to any reader.".
Definition text30 : string := "Spaces read the same all over.".

(** Deployed by the host, nothing else yet. *)
Definition deployed : State := init (at_time host_addr week10).

(** The round of week 10 is open. *)
Definition opened : State :=
  run [OpenRound (at_time host_addr week10) topic_reply] deployed.

(** Alice then Bob have submitted. *)
Definition submitted : State :=
  run [SubmitArgument (at_time alice week10) "a" text25;
       SubmitArgument (at_time bob week10) "b" text30] opened.

Definition total (n : Z) : reply :=
  Agreed (Some (JObj [("logic", JInt 30); ("creativity", JInt 20);
                      ("persuasiveness", JInt 20); ("total", JInt n);
                      ("one_line_feedback", JStr "Clear.")])).

(** Alice gets 70, Bob 55. *)
Definition fair_oracle (k : nat) (_ : request) : reply :=
  match k with O => total 70 | _ => total 55 end.

(** Alice gets 70, the call for Bob is rejected by the validators. *)
Definition failing_oracle (k : nat) (_ : request) : reply :=
  match k with O => total 70 | _ => Failed ConsensusRejected end.

(** Alice gets 70, the reply for Bob has no [total]. *)
Definition partial_oracle (k : nat) (_ : request) : reply :=
  match k with
  | O => total 70
  | _ => Agreed (Some (JObj [("logic", JInt 30);
                             ("one_line_feedback", JStr "Clear.")]))
  end.

Definition judged : State :=
  run [JudgeAll (at_time host_addr week10) fair_oracle] submitted.

(** The round of week 11 is open; nobody has submitted yet. *)
Definition reopened : State :=
  run [OpenRound (at_time host_addr week11) topic_reply] judged.

Definition hex_char (d : N) : ascii :=
  ascii_of_N (if (d <? 10)%N then 48 + d else 87 + d).

Fixpoint hex_digits (n : nat) (a : N) : string :=
  match n with
  | O => EmptyString
  | S n' => String.append (hex_digits n' (a / 16))
              (String (hex_char (a mod 16)) EmptyString)
  end.

(** A rendering of addresses: ["0x"] and 40 hexadecimal digits. *)
Definition as_hex (a : Address) : string :=
  String.append "0x" (hex_digits 40 a).

Definition hex_val (c : ascii) : option N :=
  let n := N_of_ascii c in
  if ((48 <=? n) && (n <=? 57))%N then Some (n - 48)%N
  else if ((97 <=? n) && (n <=? 102))%N then Some (n - 87)%N
  else if ((65 <=? n) && (n <=? 70))%N then Some (n - 55)%N
  else None.

Fixpoint hex_value (acc : N) (s : string) : option N :=
  match s with
  | EmptyString => Some acc
  | String c s' =>
      match hex_val c with
      | Some d => hex_value (16 * acc + d) s'
      | None => None
      end
  end.

(** Reading an address back from ["0x"] and 40 hexadecimal digits. *)
Definition address_of_str (text : string) : option Address :=
  if (String.length text =? 42)%nat && String.prefix "0x" text
  then hex_value 0 (String.substring 2 40 text)
  else None.

Definition carol : Address := 4%N.

(** The calls that lead from deployment to [judged]. *)
Definition round10 : list call :=
  [OpenRound (at_time host_addr week10) topic_reply;
   SubmitArgument (at_time alice week10) "a" text25;
   SubmitArgument (at_time bob week10) "b" text30;
   JudgeAll (at_time host_addr week10) fair_oracle].

(** A second round, in week 11, with Alice alone. *)
Definition round11 : list call :=
  [OpenRound (at_time host_addr week11) topic_reply;
   SubmitArgument (at_time alice week11) "b" text30;
   JudgeAll (at_time host_addr week11) fair_oracle].

(** Both rounds are over. *)
Definition judged_twice : State := run (round10 ++ round11) deployed.

(** A text of [n] characters. *)
Definition text_of_length (n : nat) : string :=
  string_of_list_ascii (repeat "x"%char n).

End Scenario.

(** Rows with key [v], in the order they have in [l]. *)
Definition with_key {A} (key : A -> Z) (v : Z) (l : list A) : list A :=
  List.filter (fun x => key x =? v) l.

(** [x] is not below [y] in the order of the keys. *)
Definition ge_key {A} (key : A -> Z) (x y : A) : Prop := key y <= key x.

(** * Properties *)

(** ** Checks of the Python and calendar models *)

Example iso_2025_03_15 :
  Calendar.isocalendar (2025, 3, 15) = (2025, 11, 6).
Proof. reflexivity. Qed.

Example iso_2024_12_30 :
  Calendar.isocalendar (2024, 12, 30) = (2025, 1, 1).
Proof. reflexivity. Qed.

Example iso_2021_01_01 :
  Calendar.isocalendar (2021, 1, 1) = (2020, 53, 5).
Proof. reflexivity. Qed.

Example int_of_str_examples :
  Py.int_of_str "2025" = Some 2025 /\ Py.int_of_str " -1_0 " = Some (-10)
  /\ Py.int_of_str "1__0" = None /\ Py.int_of_str "" = None
  /\ Py.int_of_str "03" = Some 3 /\ Py.int_of_str "0x" = None.
Proof. repeat split; reflexivity. Qed.

(** What [int()] refuses: a leading character 28, which is no blank to
    it, and a text of more than 4300 digits. *)
Example int_of_str_refusals :
  Py.int_of_str (String (ascii_of_nat 28) "70") = None
  /\ Py.int_of_str (String (ascii_of_nat 160) "70") = Some 70
  /\ Py.int_of_str (string_of_list_ascii (repeat "7"%char 4301)) = None
  /\ Py.int_of_str (string_of_list_ascii (repeat "0"%char 4300)) = Some 0.
Proof. repeat split; by vm_compute. Qed.

Example split_once_examples :
  Py.split_once "::" "SIDE_A::a::b" = ("SIDE_A", Some "a::b")
  /\ Py.split_once "::" "abc" = ("abc", None)
  /\ Py.upper "a" = "A".
Proof. repeat split; reflexivity. Qed.

Example week_of_examples :
  week_of "2025-03-15T12:00:00Z" = Ok "2025-W11"
  /\ week_of "2025-03-05T12:00:00Z" = Ok "2025-W10"
  /\ week_of "2024-12-30T00:00:00Z" = Ok "2025-W01"
  /\ week_of "2021-01-03T23:59:59Z" = Ok "2020-W53"
  /\ week_of "2025-02-30T12:00:00Z" = Raise (PyError ValueError)
  /\ week_of "yesterday" = Raise (PyError ValueError).
Proof. repeat split; by vm_compute. Qed.

#[local] Arguments Nat.leb : simpl never.
#[local] Arguments Nat.ltb : simpl never.
#[local] Arguments N.eqb : simpl never.
#[local] Arguments String.eqb : simpl never.
#[local] Arguments Z.pow : simpl never.

Ltac tx_unfold :=
  unfold bind, read, update, ret, raise, assert, lift in *; simpl in *.

(** ** Validation in [submit_argument] *)

Lemma valid_side_eqb side :
  (String.eqb side "a" || String.eqb side "b") = true <-> valid_side side.
Proof.
  unfold valid_side. rewrite orb_true_iff, !String.eqb_eq. tauto.
Qed.

(** The whole of [submit_argument] in an open, unjudged round. *)
Lemma submit_argument_open msg side argument s :
  round_open s = true -> judging_done s = false ->
  submit_argument msg side argument s =
    if negb (String.eqb side "a" || String.eqb side "b")
    then (Raise InvalidSide, s)
    else if (String.length argument <? 20)%nat then (Raise TextTooShort, s)
    else if (600 <? String.length argument)%nat then (Raise TextTooLong, s)
    else (Ok "Argument submitted! Wait for the host to call judge_all().",
          set_submissions
            (<[sender_address msg := stored_text side argument]>
               (submissions s))
            (match submissions s !! sender_address msg with
             | None => set_player_list (player_list s ++ [sender_address msg]) s
             | Some _ => s
             end)).
Proof.
  intros Ho Hj. unfold submit_argument. tx_unfold.
  rewrite Ho. simpl. rewrite Hj. simpl.
  destruct (String.eqb side "a" || String.eqb side "b"); simpl; [|done].
  destruct (Nat.ltb_spec (String.length argument) 20) as [H1|H1].
  - apply Nat.leb_gt in H1. by rewrite H1.
  - apply Nat.leb_le in H1. rewrite H1. simpl.
    destruct (Nat.ltb_spec 600 (String.length argument)) as [H2|H2].
    + apply Nat.leb_gt in H2. by rewrite H2.
    + apply Nat.leb_le in H2. rewrite H2. simpl.
      destruct (submissions s !! sender_address msg); done.
Qed.

(** C8: in an open, unjudged round [submit_argument] raises InvalidSide
    exactly when the side is neither of the two sides; for a valid side it
    raises TextTooShort exactly when the text has fewer than 20 characters
    and TextTooLong exactly when it has more than 600; otherwise it returns
    and the caller's submission is stored.
    A rejected call leaves the storage as it was. *)
Theorem submit_argument_validation msg side argument s :
  round_open s = true -> judging_done s = false ->
  (fails_with (submit_argument msg side argument) s InvalidSide
     <-> ~ valid_side side)
  /\ (valid_side side ->
      (fails_with (submit_argument msg side argument) s TextTooShort
         <-> (String.length argument < 20)%nat)
      /\ (fails_with (submit_argument msg side argument) s TextTooLong
         <-> (600 < String.length argument)%nat))
  /\ (valid_side side -> valid_text argument ->
      exists r s', submit_argument msg side argument s = (Ok r, s')
        /\ submissions s' !! sender_address msg
           = Some (stored_text side argument))
  /\ (forall e, fails_with (submit_argument msg side argument) s e ->
      snd (submit_argument msg side argument s) = s).
Proof.
  intros Ho Hj. unfold fails_with, valid_text.
  rewrite (submit_argument_open _ _ _ _ Ho Hj).
  pose proof (valid_side_eqb side) as Hv.
  destruct (String.eqb side "a" || String.eqb side "b"); simpl.
  2:{ assert (~ valid_side side) by (rewrite <- Hv; done).
      repeat split; try done; tauto. }
  assert (valid_side side) as Hs by (by apply Hv).
  destruct (Nat.ltb_spec (String.length argument) 20) as [H1|H1];
    [|destruct (Nat.ltb_spec 600 (String.length argument)) as [H2|H2]];
    simpl.
  all: split; [split; [done | tauto]|].
  all: split; [intros _; split; (split; [try done; lia | try done; lia])|].
  all: split; [|done].
  1,2: lia.
  intros _ _. eexists _, _. split; [done|].
  simpl. by rewrite lookup_insert_eq.
Qed.

Lemma submit_argument_validation_witness :
  let m := Scenario.at_time Scenario.alice Scenario.week10 in
  exists r s',
    submit_argument m "a" Scenario.text25 Scenario.opened = (Ok r, s')
    /\ submissions s' !! sender_address m
       = Some (stored_text "a" Scenario.text25).
Proof.
  intros m.
  destruct (submit_argument_validation m "a" Scenario.text25 Scenario.opened)
    as (_ & _ & Haccept & _).
  - vm_compute. reflexivity.
  - vm_compute. reflexivity.
  - apply Haccept.
    + left. reflexivity.
    + unfold valid_text. simpl. lia.
Defined.

(** The bounds on the length of the text: 19 is too short, 20 and 600
    are accepted, 601 is too long. *)
Example submit_argument_boundaries :
  let m := Scenario.at_time Scenario.alice Scenario.week10 in
  let try n :=
    fst (exec (SubmitArgument m "a" (Scenario.text_of_length n))
           Scenario.opened) in
  let accepted :=
    Ok "Argument submitted! Wait for the host to call judge_all()." in
  try 19%nat = Raise TextTooShort /\ try 20%nat = accepted
  /\ try 600%nat = accepted /\ try 601%nat = Raise TextTooLong.
Proof. repeat split; by vm_compute. Qed.

(** ** The judging loop *)

Lemma only_scores_changed_refl s : only_scores_changed s s.
Proof. by destruct s. Qed.

Lemma only_scores_changed_trans s1 s2 s3 :
  only_scores_changed s1 s2 -> only_scores_changed s2 s3 ->
  only_scores_changed s1 s3.
Proof.
  unfold only_scores_changed. intros H12 H23.
  rewrite H23. rewrite H12. by destruct s1.
Qed.

Lemma clamp_range n : 0 <= clamp n <= 100.
Proof. unfold clamp. lia. Qed.

Lemma clamp_fits n : fits_u256 (clamp n) = true.
Proof.
  pose proof (clamp_range n). unfold fits_u256.
  apply andb_true_intro. split; [lia|].
  apply Z.ltb_lt. assert (100 < 2 ^ 256) by (by vm_compute). lia.
Qed.

Lemma reply_score_range r xp : reply_score r = Ok xp -> 0 <= xp <= 100.
Proof.
  unfold reply_score. intros H.
  repeat case_match; simplify_eq. apply clamp_range.
Qed.

(** A reply that yields a score is an agreed JSON object whose [total]
    (0 when the object has none) [int()] converts. *)
Lemma reply_score_Ok r xp :
  reply_score r = Ok xp <->
  exists fields n,
    r = Agreed (Some (JObj fields))
    /\ py_int (default (JInt 0) (assoc "total" fields)) = Ok n
    /\ xp = clamp n.
Proof.
  unfold reply_score, dict_get. split.
  - intros H. repeat case_match; simplify_eq; eauto.
  - intros (fields & n & -> & Hn & ->). by rewrite Hn.
Qed.

(** One turn of the loop for a participant without a stored text. *)
Lemma judge_loop_skip oracle t a b p rest k s :
  has_submission s p = false ->
  judge_loop oracle t a b (p :: rest) k s
  = judge_loop oracle t a b rest k s.
Proof.
  unfold has_submission. intros H. apply negb_false_iff in H.
  simpl. tx_unfold. by rewrite H.
Qed.

(** One turn of the loop for a participant with a stored text. *)
Lemma judge_loop_turn oracle t a b p rest k s :
  has_submission s p = true ->
  judge_loop oracle t a b (p :: rest) k s
  = match reply_score
            (oracle k (request_of t a b (default "" (submissions s !! p)))) with
    | Raise e => (Raise e, s)
    | Ok xp =>
        if fits_u256 (lifetime_score s p + xp)
        then judge_loop oracle t a b rest (S k) (credit p xp s)
        else (Raise (PyError OverflowError),
              set_scores (<[p := xp]> (scores s)) s)
    end.
Proof.
  unfold has_submission. intros H. apply negb_true_iff in H.
  simpl. tx_unfold. rewrite H. unfold reply_score.
  destruct (oracle k _) as [e|[scored|]]; simpl; try done.
  destruct (dict_get scored "total" (JInt 0)) as [total|e]; simpl; try done.
  destruct (py_int total) as [n|e]; simpl; try done.
  unfold check_u256. tx_unfold. rewrite clamp_fits. simpl.
  unfold lifetime_score.
  destruct (fits_u256 (default 0 (all_time_xp s !! p) + clamp n)); done.
Qed.

Lemma credit_only_scores p xp s : only_scores_changed s (credit p xp s).
Proof. by destruct s. Qed.

Lemma has_submission_frame s s' p :
  only_scores_changed s s' -> has_submission s' p = has_submission s p.
Proof. unfold has_submission. intros ->. done. Qed.

Lemma submissions_frame s s' :
  only_scores_changed s s' -> submissions s' = submissions s.
Proof. by intros ->. Qed.

(** Whatever the loop does, it touches the two score maps only. *)
Lemma judge_loop_frame oracle t a b players :
  forall k s, only_scores_changed s (snd (judge_loop oracle t a b players k s)).
Proof.
  induction players as [|p rest IH]; intros k s.
  - apply only_scores_changed_refl.
  - destruct (has_submission s p) eqn:Hp.
    + rewrite judge_loop_turn by done.
      destruct (reply_score _) as [xp|e]; simpl;
        [|apply only_scores_changed_refl].
      destruct (fits_u256 _); simpl.
      * eapply only_scores_changed_trans; [apply credit_only_scores|apply IH].
      * by destruct s.
    + rewrite judge_loop_skip by done. apply IH.
Qed.

(** A loop that returns has scored every participant with a stored text:
    the [i]-th of them by the [i]-th answer of the oracle.  Everybody else
    keeps both scores. *)
Lemma judge_loop_Ok oracle t a b players :
  forall k s s',
    NoDup players ->
    judge_loop oracle t a b players k s = (Ok tt, s') ->
    (forall p, p ∉ List.filter (has_submission s) players ->
       scores s' !! p = scores s !! p
       /\ all_time_xp s' !! p = all_time_xp s !! p)
    /\ (forall i p, List.filter (has_submission s) players !! i = Some p ->
       exists xp,
         reply_score (oracle (k + i)%nat
           (request_of t a b (default "" (submissions s !! p)))) = Ok xp
         /\ scores s' !! p = Some xp
         /\ all_time_xp s' !! p = Some (lifetime_score s p + xp)).
Proof.
  induction players as [|p0 rest IH]; intros k s s' Hnd Hrun.
  - simpl in Hrun. tx_unfold. simplify_eq. split; [done|].
    intros i p Hi. by destruct i.
  - apply NoDup_cons in Hnd as [Hp0 Hnd].
    destruct (has_submission s p0) eqn:Hsub.
    + rewrite judge_loop_turn in Hrun by done.
      destruct (reply_score _) as [xp0|e] eqn:Hscore; [|done].
      destruct (fits_u256 _) eqn:Hfit; [|done].
      pose proof (credit_only_scores p0 xp0 s) as Hfr.
      destruct (IH _ _ _ Hnd Hrun) as [Hout Hin].
      assert (List.filter (has_submission (credit p0 xp0 s)) rest
              = List.filter (has_submission s) rest) as Hfilter.
      { apply List.filter_ext. intros p. by apply has_submission_frame. }
      rewrite Hfilter in Hout, Hin.
      assert (p0 ∉ List.filter (has_submission s) rest) as Hp0'.
      { rewrite list_elem_of_In, List.filter_In, <- list_elem_of_In. tauto. }
      simpl. rewrite Hsub. split.
      * intros p Hp. apply not_elem_of_cons in Hp as [Hne Hp].
        destruct (Hout p Hp) as [-> ->]. simpl.
        by rewrite !lookup_insert_ne.
      * intros [|i] p Hi; simpl in Hi.
        -- simplify_eq. exists xp0. rewrite Nat.add_0_r. split; [done|].
           destruct (Hout p Hp0') as [-> ->]. simpl.
           by rewrite !lookup_insert_eq.
        -- destruct (Hin i p Hi) as (xp & Hxp & Hsc & Hall).
           assert (p <> p0) as Hne.
           { intros ->. apply Hp0'. eapply list_elem_of_lookup_2. done. }
           exists xp. rewrite (submissions_frame _ _ Hfr) in Hxp.
           replace (k + S i)%nat with (S k + i)%nat by lia.
           split; [done|]. split; [done|].
           rewrite Hall. unfold lifetime_score. simpl.
           by rewrite lookup_insert_ne.
    + rewrite judge_loop_skip in Hrun by done.
      simpl. rewrite Hsub. apply IH; done.
Qed.

(** A reply that yields no score stops the loop: the whole loop raises. *)
Lemma judge_loop_fatal oracle t a b players :
  forall k s i p e,
    List.filter (has_submission s) players !! i = Some p ->
    reply_score (oracle (k + i)%nat
      (request_of t a b (default "" (submissions s !! p)))) = Raise e ->
    exists e', fst (judge_loop oracle t a b players k s) = Raise e'.
Proof.
  induction players as [|p0 rest IH]; intros k s i p e Hi Hbad.
  - by destruct i.
  - simpl in Hi. destruct (has_submission s p0) eqn:Hsub.
    + rewrite judge_loop_turn by done.
      destruct i as [|i]; simpl in Hi.
      * simplify_eq. rewrite Nat.add_0_r in Hbad. rewrite Hbad. eauto.
      * destruct (reply_score (oracle k _)) as [xp0|e0]; [|eauto].
        destruct (fits_u256 _); [|eauto].
        pose proof (credit_only_scores p0 xp0 s) as Hfr.
        apply (IH (S k) _ i p e).
        -- erewrite List.filter_ext; [exact Hi|].
           intros q. by apply has_submission_frame.
        -- rewrite (submissions_frame _ _ Hfr).
           by replace (S k + i)%nat with (k + S i)%nat by lia.
    + rewrite judge_loop_skip by done. by apply (IH k s i p e).
Qed.

(** ** What a body leaves alone *)

Section Preserves.
Context {F : Type} (f : State -> F).

Lemma preserves_ret {A} (a : A) : preserves f (ret a).
Proof. done. Qed.

Lemma preserves_raise {A} e : preserves f (@raise A e).
Proof. done. Qed.

Lemma preserves_read {A} (g : State -> A) : preserves f (read g).
Proof. done. Qed.

Lemma preserves_assert b e : preserves f (assert b e).
Proof. by destruct b. Qed.

Lemma preserves_lift {A} (o : outcome A) : preserves f (lift o).
Proof. by destruct o. Qed.

Lemma preserves_update (g : State -> State) :
  (forall s, f (g s) = f s) -> preserves f (update g).
Proof. intros H s. apply H. Qed.

Lemma preserves_bind {A B} (c : Tx A) (k : A -> Tx B) :
  preserves f c -> (forall a, preserves f (k a)) -> preserves f (bind c k).
Proof.
  intros Hc Hk s. unfold bind. specialize (Hc s).
  destruct (c s) as [[a|e] s1]; simpl in *; [|done].
  by rewrite Hk.
Qed.

Lemma preserves_for_each {A} (xs : list A) (body : A -> Tx unit) :
  (forall x, preserves f (body x)) -> preserves f (for_each xs body).
Proof.
  intros Hb. induction xs as [|x xs IH]; simpl; [done|].
  apply preserves_bind; [apply Hb | done].
Qed.

Lemma preserves_eq_principle r : preserves f (eq_principle r).
Proof. by destruct r. Qed.

Lemma preserves_json_loads t : preserves f (json_loads t).
Proof. by destruct t. Qed.

Lemma preserves_public_write {A} (c : Tx A) :
  preserves f c -> preserves f (public_write c).
Proof.
  intros Hc s. unfold public_write. specialize (Hc s).
  by destruct (c s) as [[a|e] s1].
Qed.
End Preserves.

Lemma del_submission_preserves {F} (f : State -> F) addr :
  (forall v s, f (set_submissions v s) = f s) ->
  preserves f (del_submission addr).
Proof.
  intros H s. unfold del_submission. tx_unfold.
  destruct (submissions s !! addr); simpl; [apply H | done].
Qed.

Lemma del_score_preserves {F} (f : State -> F) addr :
  (forall v s, f (set_scores v s) = f s) ->
  preserves f (del_score addr).
Proof.
  intros H s. unfold del_score. tx_unfold.
  destruct (scores s !! addr); simpl; [apply H | done].
Qed.

Lemma pop_all_preserves {F} (f : State -> F) fuel :
  (forall v s, f (set_player_list v s) = f s) ->
  preserves f (pop_all fuel).
Proof.
  intros H. induction fuel as [|fuel IH]; intros s; simpl; [done|].
  tx_unfold. destruct (0 <? length (player_list s))%nat; [|done].
  rewrite IH. apply H.
Qed.

Ltac preserves_step :=
  first
    [ apply preserves_ret | apply preserves_raise | apply preserves_read
    | apply preserves_assert | apply preserves_lift
    | apply preserves_eq_principle | apply preserves_json_loads
    | apply del_submission_preserves; intros ? []; reflexivity
    | apply del_score_preserves; intros ? []; reflexivity
    | apply pop_all_preserves; intros ? []; reflexivity
    | apply preserves_update; intros []; reflexivity
    | apply preserves_for_each; intros
    | apply preserves_bind; [|intros] ].

Ltac preserves_tac := repeat preserves_step.

(** [open_round] never touches the lifetime scores or the host. *)
Lemma open_round_preserves_all_time msg r :
  preserves all_time_xp (open_round msg r).
Proof.
  unfold open_round. preserves_tac.
Qed.

Lemma open_round_preserves_host msg r : preserves host (open_round msg r).
Proof.
  unfold open_round. preserves_tac.
Qed.

(** [submit_argument] never touches the scores, the week, the flags or
    the host. *)
Lemma submit_argument_preserves {F} (f : State -> F) msg side argument :
  (forall v s, f (set_submissions v s) = f s) ->
  (forall v s, f (set_player_list v s) = f s) ->
  preserves f (submit_argument msg side argument).
Proof.
  intros H1 H2. unfold submit_argument.
  repeat first
    [ apply preserves_ret | apply preserves_read | apply preserves_assert
    | apply preserves_bind; [|intros] ].
  - case_match; [apply preserves_ret|].
    apply preserves_bind; [apply preserves_read|intros].
    intros s. apply H2.
  - intros s. apply H1.
Qed.

(** ** [judge_all] as a whole *)

(** The guards of [judge_all] in their order, then the loop. *)
Lemma judge_all_unfold msg oracle s :
  judge_all msg oracle s =
    if negb (N.eqb (sender_address msg) (host s)) then (Raise Unauthorized, s)
    else if negb (round_open s) then (Raise RoundNotOpen, s)
    else if judging_done s then (Raise AlreadyJudged, s)
    else if negb (0 <? length (player_list s))%nat
         then (Raise NoSubmissions, s)
    else match judge_loop oracle (current_topic s) (current_side_a s)
                 (current_side_b s) (player_list s) 0 s with
         | (Ok _, s1) =>
             (Ok "Judging complete! Call get_leaderboard() to see results.",
              set_judging_done true (set_round_open false s1))
         | (Raise e, s1) => (Raise e, s1)
         end.
Proof.
  unfold judge_all. tx_unfold.
  destruct (N.eqb (sender_address msg) (host s)); simpl; [|done].
  destruct (round_open s); simpl; [|done].
  destruct (judging_done s); simpl; [done|].
  destruct (0 <? length (player_list s))%nat; simpl; [|done].
  by destruct (judge_loop _ _ _ _ _ _ _) as [[[]|e] s1].
Qed.

(** A call of [judge_all] that returns: who called, in which state, and
    what the loop did. *)
Lemma judge_all_Ok msg oracle s r s' :
  judge_all msg oracle s = (Ok r, s') ->
  sender_address msg = host s /\ round_open s = true
  /\ judging_done s = false /\ player_list s <> []
  /\ exists s1,
       judge_loop oracle (current_topic s) (current_side_a s)
         (current_side_b s) (player_list s) 0 s = (Ok tt, s1)
       /\ s' = set_judging_done true (set_round_open false s1).
Proof.
  rewrite judge_all_unfold. intros H.
  destruct (N.eqb_spec (sender_address msg) (host s)); simpl in H; [|done].
  destruct (round_open s); simpl in H; [|done].
  destruct (judging_done s); simpl in H; [done|].
  destruct (player_list s) as [|p ps] eqn:Hps; [done|].
  change (negb (0 <? length (p :: ps))%nat) with false in H.
  cbv iota in H.
  destruct (judge_loop _ _ _ _ _ _ _) as [[[]|e0] s1] eqn:Hloop; [|done].
  simplify_eq. repeat split; eauto.
Qed.

(** Each turn of the loop adds a score between 0 and 100: nobody's
    lifetime score goes down, also when the loop raises halfway. *)
Lemma judge_loop_monotone oracle t a b players p :
  forall k s,
    lifetime_score s p
    <= lifetime_score (snd (judge_loop oracle t a b players k s)) p.
Proof.
  induction players as [|p0 rest IH]; intros k s; [simpl; lia|].
  destruct (has_submission s p0) eqn:Hsub.
  - rewrite judge_loop_turn by done.
    destruct (reply_score _) as [xp|e] eqn:Hxp; simpl; [|lia].
    apply reply_score_range in Hxp.
    destruct (fits_u256 _); simpl.
    + etrans; [|apply IH].
      unfold lifetime_score, credit. simpl.
      destruct (decide (p0 = p)) as [->|Hne].
      * rewrite lookup_insert_eq. simpl. unfold lifetime_score. lia.
      * rewrite lookup_insert_ne by done. lia.
    + unfold lifetime_score. by destruct s.
  - rewrite judge_loop_skip by done. apply IH.
Qed.

Lemma judge_all_monotone msg oracle s p :
  lifetime_score s p <= lifetime_score (snd (judge_all msg oracle s)) p.
Proof.
  rewrite judge_all_unfold.
  pose proof (judge_loop_monotone oracle (current_topic s)
    (current_side_a s) (current_side_b s) (player_list s) p 0 s) as Hm.
  destruct (negb (N.eqb _ _)); simpl; [lia|].
  destruct (negb (round_open s)); simpl; [lia|].
  destruct (judging_done s); simpl; [lia|].
  destruct (negb (0 <? _)%nat); simpl; [lia|].
  destruct (judge_loop _ _ _ _ _ _ _) as [[res|e] st]; simpl in *; [|done].
  unfold lifetime_score in *. by destruct st.
Qed.

(** ** Calls *)

Lemma public_write_Ok {A} (c : Tx A) s a s' :
  public_write c s = (Ok a, s') -> c s = (Ok a, s').
Proof.
  unfold public_write. destruct (c s) as [[a0|e] s1]; congruence.
Qed.

Lemma public_write_Raise {A} (c : Tx A) s e :
  fst (public_write c s) = Raise e <-> fst (c s) = Raise e.
Proof.
  unfold public_write. by destruct (c s) as [[a0|e0] s1].
Qed.

(** A call that raises persists nothing. *)
Lemma public_write_rollback {A} (c : Tx A) s e :
  fst (public_write c s) = Raise e -> snd (public_write c s) = s.
Proof.
  unfold public_write. by destruct (c s) as [[a0|e0] s1].
Qed.

Lemma public_write_monotone {A} (c : Tx A) s p :
  lifetime_score s p <= lifetime_score (snd (c s)) p ->
  lifetime_score s p <= lifetime_score (snd (public_write c s)) p.
Proof.
  unfold public_write. destruct (c s) as [[a0|e0] s1]; simpl; lia.
Qed.

Lemma exec_monotone c s p :
  lifetime_score s p <= lifetime_score (snd (exec c s)) p.
Proof.
  destruct c as [msg r|msg side argument|msg oracle]; simpl;
    apply public_write_monotone.
  - unfold lifetime_score. by rewrite open_round_preserves_all_time.
  - unfold lifetime_score.
    rewrite (submit_argument_preserves all_time_xp); [done| |];
      by intros v [].
  - apply judge_all_monotone.
Qed.

Lemma run_monotone cs : forall s p,
  lifetime_score s p <= lifetime_score (run cs s) p.
Proof.
  induction cs as [|c cs IH]; intros s p; simpl; [lia|].
  etrans; [apply exec_monotone | apply IH].
Qed.

(** ** All-or-nothing judging *)

(** The body of [judge_all] itself keeps what it wrote before it raised:
    here Alice's score, written before the oracle failed for Bob.  That
    nothing of it is persisted is the work of [public_write]. *)
Example judge_all_body_keeps_partial_writes :
  let m := Scenario.at_time Scenario.host_addr Scenario.week10 in
  let r := judge_all m Scenario.failing_oracle Scenario.submitted in
  fst r = Raise ConsensusRejected
  /\ scores (snd r) !! Scenario.alice = Some 70
  /\ scores Scenario.submitted !! Scenario.alice = None.
Proof. vm_compute. done. Qed.

(** C1: a call of [judge_all] that fails, for whatever reason, leaves the
    contract's storage exactly as it was before the call; and an oracle
    failure for any single participant the loop scores makes the whole call
    fail. *)
Theorem judge_all_all_or_nothing msg oracle s :
  (forall e, fails_with (exec (JudgeAll msg oracle)) s e ->
     snd (exec (JudgeAll msg oracle) s) = s)
  /\ (forall i p e,
        judged_players s !! i = Some p ->
        oracle i (request_for s p) = Failed e ->
        exists e', fails_with (exec (JudgeAll msg oracle)) s e').
Proof.
  split.
  - intros e. apply public_write_rollback.
  - intros i p e Hi Hfail. unfold fails_with. simpl.
    setoid_rewrite public_write_Raise. rewrite judge_all_unfold.
    destruct (negb (N.eqb _ _)); [eauto|].
    destruct (negb (round_open s)); [eauto|].
    destruct (judging_done s); [eauto|].
    destruct (negb (0 <? _)%nat); [eauto|].
    destruct (judge_loop_fatal oracle (current_topic s) (current_side_a s)
                (current_side_b s) (player_list s) 0 s i p e Hi) as [e' He'].
    { unfold request_for in Hfail. simpl. by rewrite Hfail. }
    destruct (judge_loop _ _ _ _ _ _ _) as [[[]|e0] s1]; simpl in *; eauto.
    done.
Qed.

Lemma judge_all_all_or_nothing_witness :
  let m := Scenario.at_time Scenario.host_addr Scenario.week10 in
  snd (exec (JudgeAll m Scenario.failing_oracle) Scenario.submitted)
  = Scenario.submitted
  /\ exists e',
       fails_with (exec (JudgeAll m Scenario.failing_oracle))
         Scenario.submitted e'.
Proof.
  intros m.
  destruct (judge_all_all_or_nothing m Scenario.failing_oracle
              Scenario.submitted) as [Hkeep Hfatal].
  split.
  - apply (Hkeep ConsensusRejected). vm_compute. reflexivity.
  - apply (Hfatal 1%nat Scenario.bob ConsensusRejected);
      vm_compute; reflexivity.
Defined.

(** ** The end of a round *)

(** C4: with an empty roster [judge_all] always fails and changes
    nothing, and for the host in an open, unjudged round the failure is
    NoSubmissions; after a call of [judge_all] that returns, the round is
    not open, it is judged, and every [submit_argument] fails with
    RoundNotOpen. *)
Theorem judge_all_lifecycle msg oracle s :
  (player_list s = [] ->
     (exists e, exec (JudgeAll msg oracle) s = (Raise e, s))
     /\ (sender_address msg = host s -> round_open s = true ->
         judging_done s = false ->
         exec (JudgeAll msg oracle) s = (Raise NoSubmissions, s)))
  /\ (forall r s',
        exec (JudgeAll msg oracle) s = (Ok r, s') ->
        round_open s' = false /\ judging_done s' = true
        /\ forall msg' side argument,
             exec (SubmitArgument msg' side argument) s'
             = (Raise RoundNotOpen, s')).
Proof.
  split.
  - intros Hempty. simpl. unfold public_write.
    rewrite judge_all_unfold, Hempty.
    change (negb (0 <? length (@nil Address))%nat) with true.
    split.
    + repeat case_match; simplify_eq; eauto.
    + intros -> -> ->. by rewrite N.eqb_refl.
  - intros r s' Hrun. simpl in Hrun. apply public_write_Ok in Hrun.
    apply judge_all_Ok in Hrun as (_ & _ & _ & _ & s1 & _ & ->).
    split; [done|]. split; [done|].
    intros msg' side argument. simpl. unfold public_write, submit_argument.
    tx_unfold. done.
Qed.

Lemma judge_all_lifecycle_witness :
  let m := Scenario.at_time Scenario.host_addr Scenario.week10 in
  exec (JudgeAll m Scenario.fair_oracle) Scenario.opened
  = (Raise NoSubmissions, Scenario.opened)
  /\ round_open Scenario.judged = false
  /\ judging_done Scenario.judged = true
  /\ exec (SubmitArgument (Scenario.at_time Scenario.alice Scenario.week10)
             "a" Scenario.text25) Scenario.judged
     = (Raise RoundNotOpen, Scenario.judged).
Proof.
  intros m. split.
  - destruct (judge_all_lifecycle m Scenario.fair_oracle Scenario.opened)
      as [Hempty _].
    apply Hempty; vm_compute; reflexivity.
  - destruct (judge_all_lifecycle m Scenario.fair_oracle Scenario.submitted)
      as [_ Hdone].
    destruct (Hdone "Judging complete! Call get_leaderboard() to see results."
                Scenario.judged) as (Ho & Hj & Hsub).
    { vm_compute. reflexivity. }
    split; [exact Ho|]. split; [exact Hj|]. apply Hsub.
Defined.

(** ** Period and lifetime scores *)

(** C5: after a call of [judge_all] that returns, every participant the
    loop scored has as period score the [total] of the reply agreed for
    them, converted by [int()] (an integer [total] is taken as it is) and
    clamped into [0, 100]: a total in that range is kept, a negative one
    gives 0, one above 100 gives 100; and their lifetime score has grown
    by that same amount; across any sequence of
    calls nobody's lifetime score ever goes down, and [open_round] leaves
    the lifetime scores as they are. *)
Theorem lifetime_score_accumulates :
  (forall msg oracle s r s',
     NoDup (player_list s) ->
     exec (JudgeAll msg oracle) s = (Ok r, s') ->
     forall i p, judged_players s !! i = Some p ->
       exists fields n xp,
         oracle i (request_for s p) = Agreed (Some (JObj fields))
         /\ py_int (default (JInt 0) (assoc "total" fields)) = Ok n
         /\ (forall z, assoc "total" fields = Some (JInt z) -> n = z)
         /\ (n < 0 -> xp = 0) /\ (0 <= n <= 100 -> xp = n)
         /\ (100 < n -> xp = 100)
         /\ scores s' !! p = Some xp
         /\ all_time_xp s' !! p = Some (lifetime_score s p + xp))
  /\ (forall cs s p, lifetime_score s p <= lifetime_score (run cs s) p)
  /\ (forall msg topic_oracle s,
        all_time_xp (snd (exec (OpenRound msg topic_oracle) s))
        = all_time_xp s).
Proof.
  split; [|split].
  - intros msg oracle s r s' Hnd Hrun i p Hi.
    simpl in Hrun. apply public_write_Ok in Hrun.
    apply judge_all_Ok in Hrun as (_ & _ & _ & _ & s1 & Hloop & ->).
    destruct (judge_loop_Ok _ _ _ _ _ _ _ _ Hnd Hloop) as [_ Hin].
    destruct (Hin i p Hi) as (xp & Hxp & Hsc & Hall).
    apply reply_score_Ok in Hxp as (fields & n & Hreply & Hn & ->).
    exists fields, n, (clamp n).
    split; [done|]. split; [done|].
    split; [intros z Hz; rewrite Hz in Hn; simpl in Hn; congruence|].
    unfold clamp.
    split; [lia|]. split; [lia|]. split; [lia|]. done.
  - intros cs s p. apply run_monotone.
  - intros msg topic_oracle s. simpl.
    apply (preserves_public_write all_time_xp).
    apply open_round_preserves_all_time.
Qed.

Lemma lifetime_score_accumulates_witness :
  scores Scenario.judged !! Scenario.bob = Some 55
  /\ all_time_xp Scenario.judged !! Scenario.bob
     = Some (lifetime_score Scenario.submitted Scenario.bob + 55).
Proof.
  destruct lifetime_score_accumulates as [Hjudge _].
  destruct (Hjudge (Scenario.at_time Scenario.host_addr Scenario.week10)
              Scenario.fair_oracle Scenario.submitted
              "Judging complete! Call get_leaderboard() to see results."
              Scenario.judged) with (i := 1%nat) (p := Scenario.bob)
    as (fields & n & xp & Hreply & _ & Htotal & _ & Hkeep & _ & Hsc & Hall).
  - apply (bool_decide_unpack _). vm_compute. exact I.
  - vm_compute. reflexivity.
  - vm_compute. reflexivity.
  - assert (n = 55) as ->.
    { apply Htotal. vm_compute in Hreply. injection Hreply as <-.
      vm_compute. reflexivity. }
    assert (xp = 55) as -> by (apply Hkeep; lia).
    split; [exact Hsc | exact Hall].
Defined.

(** ** Replies that are not a score *)

(** Against C3 as stated: the reply for Bob is a JSON object without
    [total], yet the call returns, and Bob is recorded with period
    score 0. *)
Lemma missing_total_is_scored_zero :
  let m := Scenario.at_time Scenario.host_addr Scenario.week10 in
  let r := exec (JudgeAll m Scenario.partial_oracle) Scenario.submitted in
  judged_players Scenario.submitted !! 1%nat = Some Scenario.bob
  /\ (exists fields,
        Scenario.partial_oracle 1
          (request_for Scenario.submitted Scenario.bob)
        = Agreed (Some (JObj fields))
        /\ assoc "total" fields = None)
  /\ ~ fails_with (exec (JudgeAll m Scenario.partial_oracle))
         Scenario.submitted OracleUnavailable
  /\ fst r = Ok "Judging complete! Call get_leaderboard() to see results."
  /\ scores (snd r) !! Scenario.bob = Some 0.
Proof.
  intros m r. split; [by vm_compute|]. split.
  - eexists. split; [reflexivity|]. by vm_compute.
  - split; [|split]; by vm_compute.
Qed.

(** C3, as the code has it: when the text agreed for a participant is not
    JSON, the call of [judge_all] fails and nothing is recorded; when it is
    a JSON object without a [total], 0 stands in for the missing field, and
    a call that returns has recorded period score 0 for that participant
    and left their lifetime score where it was. *)
Theorem judge_all_reply_decoding msg oracle s i p :
  NoDup (player_list s) ->
  judged_players s !! i = Some p ->
  (oracle i (request_for s p) = Agreed None ->
     exists e, exec (JudgeAll msg oracle) s = (Raise e, s))
  /\ (forall fields r s',
        oracle i (request_for s p) = Agreed (Some (JObj fields)) ->
        assoc "total" fields = None ->
        exec (JudgeAll msg oracle) s = (Ok r, s') ->
        scores s' !! p = Some 0
        /\ lifetime_score s' p = lifetime_score s p).
Proof.
  intros Hnd Hi. split.
  - intros Hbad.
    assert (exists e, fst (judge_all msg oracle s) = Raise e) as [e He].
    { rewrite judge_all_unfold.
      destruct (negb (N.eqb _ _)); [eauto|].
      destruct (negb (round_open s)); [eauto|].
      destruct (judging_done s); [eauto|].
      destruct (negb (0 <? _)%nat); [eauto|].
      destruct (judge_loop_fatal oracle (current_topic s) (current_side_a s)
                  (current_side_b s) (player_list s) 0 s i p
                  (PyError JSONDecodeError) Hi) as [e' He'].
      { unfold request_for in Hbad. simpl. by rewrite Hbad. }
      destruct (judge_loop _ _ _ _ _ _ _) as [[[]|e0] s1]; simpl in *; eauto.
      done. }
    exists e. simpl. unfold public_write.
    destruct (judge_all msg oracle s) as [[r|e0] s1]; simpl in *; congruence.
  - intros fields r s' Hreply Hnone Hrun.
    simpl in Hrun. apply public_write_Ok in Hrun.
    apply judge_all_Ok in Hrun as (_ & _ & _ & _ & s1 & Hloop & ->).
    destruct (judge_loop_Ok _ _ _ _ _ _ _ _ Hnd Hloop) as [_ Hin].
    destruct (Hin i p Hi) as (xp & Hxp & Hsc & Hall).
    unfold request_for in Hreply. simpl in Hxp. rewrite Hreply in Hxp.
    unfold reply_score, dict_get in Hxp. rewrite Hnone in Hxp.
    simpl in Hxp. simplify_eq.
    change (clamp 0) with 0 in *. split; [done|].
    unfold lifetime_score in *. simpl. rewrite Hall. simpl. lia.
Qed.

Lemma judge_all_reply_decoding_witness :
  let m := Scenario.at_time Scenario.host_addr Scenario.week10 in
  let r := exec (JudgeAll m Scenario.partial_oracle) Scenario.submitted in
  scores (snd r) !! Scenario.bob = Some 0
  /\ lifetime_score (snd r) Scenario.bob
     = lifetime_score Scenario.submitted Scenario.bob.
Proof.
  intros m r.
  destruct (judge_all_reply_decoding m Scenario.partial_oracle
              Scenario.submitted 1%nat Scenario.bob) as [_ Hzero].
  - apply (bool_decide_unpack _). vm_compute. exact I.
  - vm_compute. reflexivity.
  - apply (Hzero [("logic", JInt 30); ("one_line_feedback", JStr "Clear.")]
             "Judging complete! Call get_leaderboard() to see results."
             (snd r)).
    + reflexivity.
    + vm_compute. reflexivity.
    + vm_compute. reflexivity.
Defined.

(** ** Reading one's score *)

(** C10: for an address with neither a period score nor a lifetime score,
    [get_my_score] returns, with period score 0 and lifetime score 0; and it
    never changes the storage. *)
Theorem get_my_score_unscored (Address_of_str : string -> option Address)
    text addr s :
  Address_of_str text = Some addr ->
  scores s !! addr = None ->
  all_time_xp s !! addr = None ->
  get_my_score Address_of_str text s = (Ok (mkMyScore text 0 0), s)
  /\ forall text', snd (get_my_score Address_of_str text' s) = s.
Proof.
  intros Haddr Hsc Hall. split.
  - unfold get_my_score. rewrite Haddr. tx_unfold. by rewrite Hsc, Hall.
  - intros text'. unfold get_my_score.
    by destruct (Address_of_str text').
Qed.

Lemma get_my_score_unscored_witness :
  get_my_score Scenario.address_of_str (Scenario.as_hex Scenario.carol)
    Scenario.judged
  = (Ok (mkMyScore (Scenario.as_hex Scenario.carol) 0 0), Scenario.judged).
Proof.
  apply (get_my_score_unscored Scenario.address_of_str
           (Scenario.as_hex Scenario.carol) Scenario.carol Scenario.judged);
    vm_compute; reflexivity.
Defined.

(** ** [open_round] as a whole *)

(** The loop that empties the roster does empty it. *)
Lemma pop_all_empties fuel : forall s,
  (length (player_list s) <= fuel)%nat ->
  pop_all fuel s = (Ok tt, set_player_list [] s).
Proof.
  induction fuel as [|fuel IH]; intros s Hlen; simpl.
  - destruct s as [? ? ? ? ? ? ? players ? ? ?]. simpl in *.
    destruct players; [done | simpl in Hlen; lia].
  - tx_unfold.
    destruct s as [? ? ? ? ? ? ? players ? ? ?]. simpl in *.
    destruct players as [|p ps]; [done|].
    change (0 <? length (p :: ps))%nat with true. cbv iota.
    cbn [fst snd set_player_list]. rewrite IH; [done|]. cbn [player_list].
    cbn [player_list set_player_list].
    rewrite (removelast_firstn_len (p :: ps)), length_take.
    simpl in *. lia.
Qed.

Lemma lookup_after_delete {V} (m m' : gmap N V) (p0 : N) rest p :
  m' !! p = (if decide (p ∈ rest) then None else delete p0 m !! p) ->
  m' !! p = if decide (p ∈ p0 :: rest) then None else m !! p.
Proof.
  intros ->.
  destruct (decide (p ∈ rest)) as [Hin|Hnin],
    (decide (p ∈ p0 :: rest)) as [Hin'|Hnin']; try done.
  - exfalso. apply Hnin'. by apply list_elem_of_further.
  - apply elem_of_cons in Hin' as [->|]; [apply lookup_delete_eq | done].
  - rewrite lookup_delete_ne; [done|].
    intros <-. apply Hnin'. apply list_elem_of_here.
Qed.

(** What the clearing loop leaves when it returns: roster members are
    gone from both per-round maps, everything else is as before. *)
Lemma clear_loop_Ok players : forall s s',
  for_each players
    (fun addr => let* _ := del_submission addr in del_score addr) s
  = (Ok tt, s') ->
  s' = set_scores (scores s') (set_submissions (submissions s') s)
  /\ (forall p, submissions s' !! p
        = if decide (p ∈ players) then None else submissions s !! p)
  /\ (forall p, scores s' !! p
        = if decide (p ∈ players) then None else scores s !! p).
Proof.
  induction players as [|p0 rest IH]; intros s s' Hrun.
  - simpl in Hrun. tx_unfold. simplify_eq.
    split; [by destruct s'|].
    done.
  - simpl in Hrun. unfold del_submission, del_score in Hrun. tx_unfold.
    destruct (submissions s !! p0) eqn:Hsub; simpl in Hrun; [|done].
    destruct (scores s !! p0) eqn:Hsc; simpl in Hrun; [|done].
    apply IH in Hrun as (Hfr & Hsubs & Hscs). simpl in *.
    split; [rewrite Hfr; by destruct s|].
    split; intros p; by apply lookup_after_delete.
Qed.

(** The guards of [open_round], in their order. *)
Lemma open_round_guards msg r s :
  (sender_address msg <> host s ->
     open_round msg r s = (Raise Unauthorized, s))
  /\ (sender_address msg = host s -> round_open s = true ->
     open_round msg r s = (Raise RoundAlreadyOpen, s))
  /\ (sender_address msg = host s -> round_open s = false ->
     week_of (datetime msg) = Ok (current_week s) ->
     open_round msg r s = (Raise PeriodAlreadyPlayed, s)).
Proof.
  unfold open_round. tx_unfold. repeat split.
  - intros Hne. apply N.eqb_neq in Hne. by rewrite Hne.
  - intros Hh Ho. rewrite Hh, N.eqb_refl. simpl. by rewrite Ho.
  - intros Hh Ho Hw. rewrite Hh, N.eqb_refl. simpl. rewrite Ho. simpl.
    rewrite Hw. simpl. by rewrite String.eqb_refl.
Qed.

(** A call of [open_round] that returns. *)
Lemma open_round_Ok msg r s ret s' :
  open_round msg r s = (Ok ret, s') ->
  sender_address msg = host s /\ round_open s = false
  /\ week_of (datetime msg) = Ok (current_week s')
  /\ current_week s' <> current_week s
  /\ round_open s' = true /\ judging_done s' = false
  /\ player_list s' = [] /\ host s' = host s
  /\ all_time_xp s' = all_time_xp s
  /\ (forall p, submissions s' !! p
        = if decide (p ∈ player_list s) then None else submissions s !! p)
  /\ (forall p, scores s' !! p
        = if decide (p ∈ player_list s) then None else scores s !! p).
Proof.
  unfold open_round. tx_unfold. intros H.
  destruct (N.eqb_spec (sender_address msg) (host s)) as [Hhost|];
    simpl in H; [|done].
  destruct (round_open s) eqn:Hopen; simpl in H; [done|].
  destruct (week_of (datetime msg)) as [w|e]; simpl in H; [|done].
  destruct (String.eqb_spec w (current_week s)) as [|Hweek];
    simpl in H; [done|].
  destruct r as [e|[topic_data|]]; simpl in H; try done.
  destruct (subscript topic_data "topic") as [v1|e]; simpl in H; [|done].
  destruct (as_str v1) as [t|e]; simpl in H; [|done].
  destruct (subscript topic_data "side_a") as [v2|e]; simpl in H; [|done].
  destruct (as_str v2) as [a|e]; simpl in H; [|done].
  destruct (subscript topic_data "side_b") as [v3|e]; simpl in H; [|done].
  destruct (as_str v3) as [b|e]; simpl in H; [|done].
  destruct (for_each _ _ _) as [[[]|e] s1] eqn:Hclear; simpl in H; [|done].
  apply clear_loop_Ok in Hclear as (Hfr & Hsubs & Hscs).
  rewrite pop_all_empties in H by done. simpl in H.
  simplify_eq. rewrite Hfr. simpl in *.
  repeat split; done.
Qed.

(** [judge_all] changes the score maps and the two flags, nothing else. *)
Lemma judge_all_preserves {F} (f : State -> F) msg oracle :
  (forall v s, f (set_scores v s) = f s) ->
  (forall v s, f (set_all_time_xp v s) = f s) ->
  (forall v s, f (set_round_open v s) = f s) ->
  (forall v s, f (set_judging_done v s) = f s) ->
  preserves f (judge_all msg oracle).
Proof.
  intros H1 H2 H3 H4 s. rewrite judge_all_unfold.
  pose proof (judge_loop_frame oracle (current_topic s) (current_side_a s)
    (current_side_b s) (player_list s) 0 s) as Hfr.
  destruct (negb (N.eqb _ _)); [done|].
  destruct (negb (round_open s)); [done|].
  destruct (judging_done s); [done|].
  destruct (negb (0 <? _)%nat); [done|].
  destruct (judge_loop _ _ _ _ _ _ _) as [[[]|e] s1]; simpl in *.
  - rewrite H4, H3, Hfr, H2, H1. done.
  - rewrite Hfr, H2, H1. done.
Qed.

(** Submitting and judging leave the week and the host alone. *)
Lemma run_keeps_week cs : forall s,
  Forall (fun c => is_open_round c = false) cs ->
  current_week (run cs s) = current_week s /\ host (run cs s) = host s.
Proof.
  induction cs as [|c cs IH]; intros s Hcs; [done|].
  apply Forall_cons in Hcs as [Hc Hcs]. simpl.
  destruct (IH (snd (exec c s)) Hcs) as [-> ->].
  destruct c as [msg r|msg side argument|msg oracle]; [done| |]; simpl.
  - split; apply preserves_public_write;
      apply submit_argument_preserves; by intros v [].
  - split; apply preserves_public_write;
      apply judge_all_preserves; by intros v [].
Qed.

(** ** One round per week *)

(** Against C9 as stated: the host opens the round of week 10 and at once
    calls [open_round] again; the second call fails, but on the guard that
    comes first, with RoundAlreadyOpen. *)
Lemma second_open_round_is_round_already_open :
  let m := Scenario.at_time Scenario.host_addr Scenario.week10 in
  fst (exec (OpenRound m Scenario.topic_reply) Scenario.deployed)
    = Ok "Round 2025-W10 opened! Topic: Tabs or spaces"
  /\ snd (exec (OpenRound m Scenario.topic_reply) Scenario.deployed)
     = Scenario.opened
  /\ exec (OpenRound m Scenario.topic_reply) Scenario.opened
     = (Raise RoundAlreadyOpen, Scenario.opened)
  /\ ~ fails_with (exec (OpenRound m Scenario.topic_reply)) Scenario.opened
         PeriodAlreadyPlayed.
Proof.
  intros m. split; [by vm_compute|]. split; [done|].
  assert (exec (OpenRound m Scenario.topic_reply) Scenario.opened
          = (Raise RoundAlreadyOpen, Scenario.opened)) as H.
  { simpl. unfold public_write.
    destruct (open_round_guards m Scenario.topic_reply Scenario.opened)
      as (_ & -> & _); by vm_compute. }
  split; [done|]. unfold fails_with. by rewrite H.
Qed.

(** C9, as the code has it: once [open_round] has returned for a week,
    and as long as only arguments are submitted and judged, every further
    call of [open_round] at a time of the same week fails and changes
    nothing.  It fails with Unauthorized for a caller other than the host,
    with RoundAlreadyOpen while the round is open, and with
    PeriodAlreadyPlayed once the round has been judged. *)
Theorem open_round_same_period_rejected
    msg1 r1 s ret s1 cs msg2 r2 :
  exec (OpenRound msg1 r1) s = (Ok ret, s1) ->
  week_of (datetime msg2) = week_of (datetime msg1) ->
  Forall (fun c => is_open_round c = false) cs ->
  exec (OpenRound msg2 r2) (run cs s1)
  = (Raise (if negb (N.eqb (sender_address msg2) (host s)) then Unauthorized
            else if round_open (run cs s1) then RoundAlreadyOpen
            else PeriodAlreadyPlayed),
     run cs s1).
Proof.
  intros Hopen Hweek Hcs. simpl in Hopen. apply public_write_Ok in Hopen.
  apply open_round_Ok in Hopen
    as (_ & _ & Hw & _ & _ & _ & _ & Hhost & _).
  destruct (run_keeps_week cs s1 Hcs) as [Hweek' Hhost'].
  rewrite <- Hhost, <- Hhost'.
  destruct (open_round_guards msg2 r2 (run cs s1)) as (Hg1 & Hg2 & Hg3).
  simpl. unfold public_write.
  destruct (N.eqb_spec (sender_address msg2) (host (run cs s1))) as [He|Hne];
    simpl.
  - destruct (round_open (run cs s1)) eqn:Ho.
    + by rewrite Hg2.
    + rewrite Hg3; [done..|]. by rewrite Hweek, Hweek'.
  - by rewrite Hg1.
Qed.

Lemma open_round_same_period_rejected_witness :
  let m := Scenario.at_time Scenario.host_addr Scenario.week10 in
  exec (OpenRound m Scenario.topic_reply) Scenario.judged
  = (Raise PeriodAlreadyPlayed, Scenario.judged).
Proof.
  intros m.
  apply (open_round_same_period_rejected m Scenario.topic_reply
           Scenario.deployed
           "Round 2025-W10 opened! Topic: Tabs or spaces" Scenario.opened
           [SubmitArgument (Scenario.at_time Scenario.alice Scenario.week10)
              "a" Scenario.text25;
            SubmitArgument (Scenario.at_time Scenario.bob Scenario.week10)
              "b" Scenario.text30;
            JudgeAll m Scenario.fair_oracle]
           m Scenario.topic_reply).
  - vm_compute. reflexivity.
  - reflexivity.
  - repeat constructor.
Defined.

(** ** The roster *)

Lemma first_seen_snoc l p :
  first_seen (l ++ [p])
  = if decide (p ∈ l) then first_seen l else first_seen l ++ [p].
Proof.
  unfold first_seen. rewrite reverse_snoc. simpl.
  destruct (decide_rel elem_of p (reverse l)) as [Hin|Hnin].
  - rewrite decide_True; [done | by apply elem_of_reverse].
  - rewrite decide_False; [by rewrite reverse_cons|].
    intros Hin. apply Hnin. by apply elem_of_reverse.
Qed.

Lemma elem_of_first_seen l p : p ∈ first_seen l <-> p ∈ l.
Proof.
  unfold first_seen.
  by rewrite elem_of_reverse, elem_of_remove_dups, elem_of_reverse.
Qed.

Lemma NoDup_first_seen l : NoDup (first_seen l).
Proof.
  unfold first_seen. rewrite reverse_Permutation. apply NoDup_remove_dups.
Qed.

Lemma first_seen_NoDup l : NoDup l -> first_seen l = l.
Proof.
  induction l as [|p l IH] using rev_ind; intros Hnd; [done|].
  apply NoDup_app in Hnd as (Hl & Hp & _).
  rewrite first_seen_snoc, IH by done.
  rewrite decide_False; [done|].
  intros Hin. apply (Hp p Hin). apply list_elem_of_here.
Qed.

(** The number of distinct elements of [l]. *)
Lemma length_first_seen l :
  length (first_seen l) = size (list_to_set l : gset N).
Proof.
  rewrite <- (size_list_to_set (C := gset N) (first_seen l))
    by apply NoDup_first_seen.
  f_equal. apply set_eq. intros p.
  by rewrite !elem_of_list_to_set, elem_of_first_seen.
Qed.

Lemma run_app cs1 cs2 s : run (cs1 ++ cs2) s = run cs2 (run cs1 s).
Proof. revert s. induction cs1 as [|c cs1 IH]; intros s; simpl; done. Qed.

(** One accepted submission: the caller joins the end of the roster
    unless already on it, and the stored text is replaced. *)
Lemma submit_argument_accepted msg side argument s :
  roster_inv s -> round_open s = true -> judging_done s = false ->
  valid_side side -> valid_text argument ->
  exists s',
    exec (SubmitArgument msg side argument) s
    = (Ok "Argument submitted! Wait for the host to call judge_all().", s')
    /\ player_list s'
       = (if decide (sender_address msg ∈ player_list s) then player_list s
          else player_list s ++ [sender_address msg])
    /\ submissions s'
       = <[sender_address msg := stored_text side argument]> (submissions s)
    /\ round_open s' = true /\ judging_done s' = false.
Proof.
  intros [Hnd Hkeys] Ho Hj Hside Htext. simpl. unfold public_write.
  rewrite (submit_argument_open _ _ _ _ Ho Hj).
  apply valid_side_eqb in Hside. rewrite Hside. simpl.
  destruct Htext as [Hlo Hhi].
  apply Nat.ltb_ge in Hlo. rewrite Hlo.
  assert ((600 <? String.length argument)%nat = false) as ->
    by (apply Nat.ltb_ge; lia).
  eexists. split; [done|].
  destruct (submissions s !! sender_address msg) eqn:Hsub; simpl.
  - rewrite decide_True; [done|]. apply Hkeys. by rewrite Hsub.
  - rewrite decide_False; [done|].
    intros Hin. apply Hkeys in Hin as [v Hv]. congruence.
Qed.

(** The roster invariant survives an accepted submission. *)
Lemma roster_inv_insert s s' p v :
  roster_inv s ->
  player_list s'
    = (if decide (p ∈ player_list s) then player_list s
       else player_list s ++ [p]) ->
  submissions s' = <[p := v]> (submissions s) ->
  roster_inv s'.
Proof.
  intros [Hnd Hkeys] Hl Hs. unfold roster_inv. rewrite Hl, Hs.
  destruct (decide (p ∈ player_list s)) as [Hin|Hnin].
  - split; [done|]. intros q. rewrite Hkeys.
    destruct (decide (p = q)) as [->|Hne].
    + rewrite lookup_insert_eq. split; [eauto|]. intros _. by apply Hkeys.
    + by rewrite lookup_insert_ne.
  - split.
    + apply NoDup_app. split; [done|]. split; [|apply NoDup_singleton].
      intros q Hq Hq'. apply list_elem_of_singleton in Hq' as ->. done.
    + intros q. rewrite elem_of_app, list_elem_of_singleton, Hkeys.
      destruct (decide (p = q)) as [->|Hne].
      * rewrite lookup_insert_eq. split; eauto.
      * rewrite lookup_insert_ne by done. split; [|tauto].
        intros [H| ->]; done.
Qed.

(** Every call keeps the roster invariant. *)
Lemma exec_roster_inv c s : roster_inv s -> roster_inv (snd (exec c s)).
Proof.
  intros Hinv. destruct c as [msg r|msg side argument|msg oracle]; simpl.
  - unfold public_write.
    destruct (open_round msg r s) as [[ret|e] s1] eqn:Hrun; [|done].
    apply open_round_Ok in Hrun
      as (_ & _ & _ & _ & _ & _ & Hl & _ & _ & Hsubs & _).
    simpl. destruct Hinv as [Hnd Hkeys]. split; rewrite Hl.
    + apply NoDup_nil_2.
    + intros p. rewrite Hsubs. split.
      * intros Hp. by apply elem_of_nil in Hp.
      * case_decide as Hin.
        -- intros [v Hv]. discriminate Hv.
        -- intros Hsome. by apply Hkeys in Hsome.
  - unfold public_write.
    destruct (round_open s) eqn:Ho.
    2:{ unfold submit_argument. tx_unfold. by rewrite Ho. }
    destruct (judging_done s) eqn:Hj.
    { unfold submit_argument. tx_unfold. rewrite Ho. simpl. by rewrite Hj. }
    rewrite (submit_argument_open _ _ _ _ Ho Hj).
    repeat (case_match; simpl; try done); simplify_eq.
    + eapply roster_inv_insert; [done| |simpl; done].
      simpl. rewrite decide_True; [done|].
      apply Hinv. eauto.
    + eapply roster_inv_insert; [done| |simpl; done].
      simpl. rewrite decide_False; [done|].
      intros Hin. apply Hinv in Hin as [? ?]. congruence.
  - destruct Hinv as [Hnd Hkeys]. unfold roster_inv.
    assert (player_list (snd (public_write (judge_all msg oracle) s))
            = player_list s) as ->.
    { apply (preserves_public_write player_list).
      apply judge_all_preserves; by intros v []. }
    assert (submissions (snd (public_write (judge_all msg oracle) s))
            = submissions s) as ->.
    { apply (preserves_public_write submissions).
      apply judge_all_preserves; by intros v []. }
    done.
Qed.

Lemma run_roster_inv cs : forall s, roster_inv s -> roster_inv (run cs s).
Proof.
  induction cs as [|c cs IH]; intros s Hinv; [done|].
  simpl. apply IH. by apply exec_roster_inv.
Qed.

Lemma init_roster_inv msg : roster_inv (init msg).
Proof.
  split; simpl; [apply NoDup_nil_2|].
  intros p. rewrite lookup_empty. split.
  - intros Hp. by apply elem_of_nil in Hp.
  - by intros [? ?].
Qed.

(** A run of accepted submissions in one round. *)
Lemma run_submissions s (calls : list (message * string * string)) :
  roster_inv s -> round_open s = true -> judging_done s = false ->
  Forall (fun c => valid_side (snd (fst c)) /\ valid_text (snd c)) calls ->
  let s' := run (map submit_call calls) s in
  roster_inv s' /\ round_open s' = true /\ judging_done s' = false
  /\ player_list s' = first_seen (player_list s ++ map submitter calls)
  /\ (forall before c after,
        calls = before ++ c :: after ->
        submitter c ∉ map submitter after ->
        submissions s' !! submitter c
        = Some (stored_text (snd (fst c)) (snd c))).
Proof.
  intros Hinv Ho Hj. induction calls as [|c calls IH] using rev_ind;
    intros Hvalid; simpl.
  - rewrite app_nil_r, first_seen_NoDup by apply Hinv.
    repeat split; try done; try apply Hinv.
    intros before c after Heq. by destruct before.
  - apply Forall_app in Hvalid as [Hvalid Hc].
    apply Forall_singleton in Hc as [Hside Htext].
    destruct (IH Hvalid) as (Hinv1 & Ho1 & Hj1 & Hl1 & Hlast1). clear IH.
    rewrite map_app, run_app. simpl.
    set (s1 := run (map submit_call calls) s) in *.
    destruct c as [[msg side] argument]. simpl in *.
    destruct (submit_argument_accepted msg side argument s1
                Hinv1 Ho1 Hj1 Hside Htext)
      as (s2 & Hrun & Hl2 & Hs2 & Ho2 & Hj2).
    unfold submit_call. simpl in *. rewrite Hrun. simpl.
    split; [by eapply roster_inv_insert|].
    split; [done|]. split; [done|]. split.
    + rewrite Hl2, map_app, app_assoc. simpl.
      rewrite first_seen_snoc, Hl1.
      change (submitter (msg, side, argument)) with (sender_address msg).
      destruct (decide (sender_address msg ∈ player_list s ++ map submitter calls))
        as [Hin|Hnin].
      * rewrite decide_True; [done|]. by apply elem_of_first_seen.
      * rewrite decide_False; [done|]. by rewrite elem_of_first_seen.
    + intros before c after Heq Hnot. rewrite Hs2.
      destruct after as [|c' after _] using rev_ind.
      * apply app_inj_tail in Heq as [Hb Hc]. subst c.
        unfold submitter. simpl. by rewrite lookup_insert_eq.
      * rewrite app_comm_cons, app_assoc in Heq.
        apply app_inj_tail in Heq as [Hb Hc]. subst c'.
        rewrite map_app, not_elem_of_app in Hnot.
        destruct Hnot as [Hafter Hne]. simpl in Hne.
        apply not_elem_of_cons in Hne as [Hne _].
        rewrite lookup_insert_ne by (unfold submitter in *; simpl in *; done).
        by apply (Hlast1 before c after).
Qed.

(** C7: for valid sides and texts, every submission is accepted; a
    participant who submits again overwrites the text stored for them and
    is not added to the roster a second time.  The roster holds each
    submitter of the round exactly once, in the order of their first
    submissions, so its length is the number of distinct submitters; and in
    every state the contract can reach the roster has no duplicates and
    lists exactly the participants with a stored submission. *)
Theorem roster_holds_each_submitter_once :
  (forall cs msg0, roster_inv (run cs (init msg0)))
  /\ (forall s (calls : list (message * string * string)),
        roster_inv s -> round_open s = true -> judging_done s = false ->
        Forall (fun c => valid_side (snd (fst c)) /\ valid_text (snd c))
          calls ->
        let s' := run (map submit_call calls) s in
        let submitters := player_list s ++ map submitter calls in
        player_list s' = first_seen submitters
        /\ NoDup (player_list s')
        /\ length (player_list s')
           = size (list_to_set submitters : gset N)
        /\ (forall before c after,
              calls = before ++ c :: after ->
              submitter c ∉ map submitter after ->
              submissions s' !! submitter c
              = Some (stored_text (snd (fst c)) (snd c)))).
Proof.
  split.
  - intros cs msg0. apply run_roster_inv, init_roster_inv.
  - intros s calls Hinv Ho Hj Hvalid s' submitters.
    destruct (run_submissions s calls Hinv Ho Hj Hvalid)
      as (Hinv' & _ & _ & Hl & Hlast).
    split; [done|]. split; [apply Hinv'|].
    split; [|done]. subst s'. rewrite Hl. apply length_first_seen.
Qed.

Lemma roster_holds_each_submitter_once_witness :
  let calls :=
    [(Scenario.at_time Scenario.alice Scenario.week10, "a", Scenario.text25);
     (Scenario.at_time Scenario.bob Scenario.week10, "b", Scenario.text30);
     (Scenario.at_time Scenario.alice Scenario.week10, "b", Scenario.text30)]
  in
  let s' := run (map submit_call calls) Scenario.opened in
  player_list s' = first_seen [Scenario.alice; Scenario.bob; Scenario.alice]
  /\ length (player_list s')
     = size (list_to_set [Scenario.alice; Scenario.bob; Scenario.alice]
               : gset N)
  /\ submissions s' !! Scenario.alice
     = Some (stored_text "b" Scenario.text30).
Proof.
  intros calls s'.
  destruct roster_holds_each_submitter_once as [Hreach Hround].
  destruct (Hround Scenario.opened calls) as (Hl & Hnd & Hlen & Hlast).
  - exact (Hreach [OpenRound
                     (Scenario.at_time Scenario.host_addr Scenario.week10)
                     Scenario.topic_reply]
             (Scenario.at_time Scenario.host_addr Scenario.week10)).
  - vm_compute. reflexivity.
  - vm_compute. reflexivity.
  - unfold calls, valid_side, valid_text.
    apply Forall_cons.
    split; [split; [left; reflexivity | simpl; lia]|].
    apply Forall_cons.
    split; [split; [right; reflexivity | simpl; lia]|].
    apply Forall_cons.
    split; [split; [right; reflexivity | simpl; lia]|].
    apply Forall_nil_2.
  - split; [exact Hl|]. split; [exact Hlen|].
    apply (Hlast
      [(Scenario.at_time Scenario.alice Scenario.week10, "a", Scenario.text25);
       (Scenario.at_time Scenario.bob Scenario.week10, "b", Scenario.text30)]
      (Scenario.at_time Scenario.alice Scenario.week10, "b", Scenario.text30)
      []).
    + reflexivity.
    + simpl. apply not_elem_of_nil.
Defined.

(** ** Sorting a leaderboard *)

Section Sorting.
Context {A : Type} (key : A -> Z).

Lemma insert_desc_perm x l : insert_desc key x l ≡ₚ x :: l.
Proof.
  induction l as [|y l IH]; simpl; [done|].
  destruct (key y <=? key x); [done|].
  rewrite IH. apply Permutation_swap.
Qed.

Lemma sort_reverse_perm l : sort_reverse key l ≡ₚ l.
Proof.
  induction l as [|x l IH]; simpl; [done|].
  rewrite insert_desc_perm. by rewrite IH.
Qed.

Lemma insert_desc_sorted x l :
  StronglySorted (ge_key key) l -> StronglySorted (ge_key key) (insert_desc key x l).
Proof.
  induction 1 as [|y l Hl IH Hy]; simpl.
  - by repeat constructor.
  - destruct (Z.leb_spec (key y) (key x)) as [Hle|Hgt].
    + constructor; [by constructor|].
      constructor; [done|].
      eapply List.Forall_impl; [|exact Hy].
      unfold ge_key. intros z Hz. lia.
    + constructor; [done|].
      rewrite insert_desc_perm. constructor; [|done].
      unfold ge_key. lia.
Qed.

Lemma sort_reverse_sorted l : StronglySorted (ge_key key) (sort_reverse key l).
Proof.
  induction l as [|x l IH]; simpl; [constructor|].
  by apply insert_desc_sorted.
Qed.

(** Inserting puts [x] ahead of the rows that have its key. *)
Lemma with_key_insert_desc v x l :
  with_key key v (insert_desc key x l) = with_key key v (x :: l).
Proof.
  unfold with_key. induction l as [|y l IH]; simpl; [done|].
  destruct (Z.leb_spec (key y) (key x)) as [Hle|Hgt]; simpl; [done|].
  rewrite IH. simpl.
  destruct (Z.eqb_spec (key x) v) as [Hx|Hx]; [|done].
  destruct (Z.eqb_spec (key y) v) as [Hy|Hy]; [lia | done].
Qed.

(** The sort is stable. *)
Lemma with_key_sort_reverse v l :
  with_key key v (sort_reverse key l) = with_key key v l.
Proof.
  induction l as [|x l IH]; simpl; [done|].
  rewrite with_key_insert_desc. unfold with_key in *. simpl.
  by rewrite IH.
Qed.

Lemma sorted_lookup l :
  StronglySorted (ge_key key) l ->
  forall i j x y, (i < j)%nat -> l !! i = Some x -> l !! j = Some y ->
    key y <= key x.
Proof.
  induction 1 as [|z l Hl IH Hz]; intros i j x y Hij Hi Hj.
  - by destruct i.
  - destruct j as [|j]; [lia|]. simpl in Hj.
    destruct i as [|i]; simpl in Hi.
    + simplify_eq. rewrite List.Forall_forall in Hz.
      apply Hz. apply list_elem_of_In. by eapply list_elem_of_lookup_2.
    + apply (IH i j); [lia | done | done].
Qed.

Lemma comes_before_with_key v l x y :
  comes_before l x y -> key x = v -> key y = v ->
  comes_before (with_key key v l) x y.
Proof.
  intros (l1 & l2 & l3 & ->) Hx Hy. unfold with_key.
  exists (with_key key v l1), (with_key key v l2), (with_key key v l3).
  unfold with_key. rewrite List.filter_app. simpl.
  apply Z.eqb_eq in Hx, Hy. rewrite Hx, List.filter_app. simpl.
  by rewrite Hy.
Qed.

Lemma with_key_comes_before v l x y :
  comes_before (with_key key v l) x y -> comes_before l x y.
Proof.
  unfold with_key. induction l as [|a l IH]; intros (l1 & l2 & l3 & Heq).
  - by destruct l1.
  - simpl in Heq. destruct (key a =? v).
    + destruct l1 as [|b l1]; simpl in Heq; simplify_eq.
      * assert (y ∈ l) as Hy.
        { assert (In y (List.filter (fun x => key x =? v) l)) as Hin.
          { rewrite H0. apply in_or_app. right. by left. }
          apply List.filter_In in Hin as [Hin _].
          by apply list_elem_of_In. }
        apply list_elem_of_split in Hy as (k1 & k2 & ->).
        by exists [], k1, k2.
      * destruct IH as (k1 & k2 & k3 & ->); [by exists l1, l2, l3|].
        by exists (b :: k1), k2, k3.
    + destruct IH as (k1 & k2 & k3 & ->); [by exists l1, l2, l3|].
      by exists (a :: k1), k2, k3.
Qed.

(** Of two rows with the same key, the one that is first in [l] is
    first after sorting. *)
Lemma sort_reverse_keeps_ties l x y :
  comes_before l x y -> key x = key y ->
  comes_before (sort_reverse key l) x y.
Proof.
  intros Hb Hk. apply (with_key_comes_before (key x)).
  rewrite with_key_sort_reverse. by apply comes_before_with_key.
Qed.
End Sorting.

Lemma map_imap_id {A B} (g : B -> A) (l : list A) :
  forall f : nat -> A -> B,
    (forall i a, g (f i a) = a) -> map g (imap f l) = l.
Proof.
  induction l as [|a l IH]; intros f Hf; [done|].
  simpl. rewrite Hf. f_equal. apply IH. intros i b. apply Hf.
Qed.

Lemma rows_add_rank (entries : list (string * Z)) :
  map row (add_rank entries) = entries.
Proof. apply map_imap_id. by intros i []. Qed.

Lemma rank_add_rank (entries : list (string * Z)) i e :
  add_rank entries !! i = Some e -> entry_rank e = Z.of_nat i + 1.
Proof.
  unfold add_rank. rewrite list_lookup_imap.
  destruct (entries !! i); simpl; [|done]. by intros [= <-].
Qed.

Lemma lookup_map {A B} (f : A -> B) (l : list A) i :
  map f l !! i = f <$> l !! i.
Proof.
  revert i. induction l as [|a l IH]; intros [|i]; simpl; try done.
Qed.

Lemma lookup_comes_before {A} (l : list A) i j x y :
  (i < j)%nat -> l !! i = Some x -> l !! j = Some y -> comes_before l x y.
Proof.
  intros Hij Hi Hj.
  exists (take i l), (take (j - S i) (drop (S i) l)),
    (drop (S (j - S i)) (drop (S i) l)).
  rewrite <- (take_drop_middle l i x Hi) at 1. f_equal. f_equal.
  symmetry. apply take_drop_middle.
  rewrite lookup_drop. by replace (S i + (j - S i))%nat with j by lia.
Qed.

(** Both leaderboards are built the same way from the roster and a score
    map: the rows are the roster's, sorted by descending score, ties in
    roster order, ranked from 1. *)
Lemma ranking_spec (as_hex : Address -> string) (score : Address -> Z)
    (players : list Address) :
  let rows := roster_rows as_hex score players in
  let ranked := add_rank (sort_reverse snd rows) in
  map row ranked ≡ₚ rows
  /\ (forall i j e1 e2, (i < j)%nat ->
        ranked !! i = Some e1 -> ranked !! j = Some e2 ->
        entry_xp e2 <= entry_xp e1)
  /\ (forall v, with_key snd v (map row ranked) = with_key snd v rows)
  /\ (forall i j p q, (i < j)%nat ->
        players !! i = Some p -> players !! j = Some q ->
        score p = score q ->
        comes_before (map row ranked) (as_hex p, score p) (as_hex q, score q))
  /\ (forall i e, ranked !! i = Some e -> entry_rank e = Z.of_nat i + 1).
Proof.
  intros rows ranked. subst ranked. rewrite rows_add_rank.
  split; [apply sort_reverse_perm|].
  split.
  { intros i j e1 e2 Hij Hi Hj.
    apply (sorted_lookup snd (sort_reverse snd rows)
             (sort_reverse_sorted snd rows) i j (row e1) (row e2) Hij).
    - rewrite <- (rows_add_rank (sort_reverse snd rows)), lookup_map.
      by rewrite Hi.
    - rewrite <- (rows_add_rank (sort_reverse snd rows)), lookup_map.
      by rewrite Hj. }
  split; [intros v; apply with_key_sort_reverse|].
  split; [|intros i e; apply rank_add_rank].
  intros i j p q Hij Hi Hj Heq.
  apply sort_reverse_keeps_ties; [|done].
  apply (lookup_comes_before rows i j); [done| |].
  - unfold rows, roster_rows. by rewrite lookup_map, Hi.
  - unfold rows, roster_rows. by rewrite lookup_map, Hj.
Qed.

(** ** The period leaderboard *)

(** C6: [get_leaderboard] returns, with the current week and topic, one
    row per roster entry, pairing the participant with their period score
    (0 when they have none); the rows are in descending order of score;
    rows with equal scores keep roster order, so of two tied participants
    the one who submitted first comes first; and the row at place [i]
    (counting from 0) has rank [i + 1]. *)
Theorem get_leaderboard_ranking (as_hex : Address -> string) s :
  exists ranked,
    get_leaderboard as_hex s
    = (Ok (mkLeaderboard (current_week s) (current_topic s) ranked), s)
    /\ map row ranked ≡ₚ roster_rows as_hex (period_score s) (player_list s)
    /\ (forall i j e1 e2, (i < j)%nat ->
          ranked !! i = Some e1 -> ranked !! j = Some e2 ->
          entry_xp e2 <= entry_xp e1)
    /\ (forall v,
          with_key snd v (map row ranked)
          = with_key snd v
              (roster_rows as_hex (period_score s) (player_list s)))
    /\ (forall i j p q, (i < j)%nat ->
          player_list s !! i = Some p -> player_list s !! j = Some q ->
          period_score s p = period_score s q ->
          comes_before (map row ranked)
            (as_hex p, period_score s p) (as_hex q, period_score s q))
    /\ (forall i e, ranked !! i = Some e -> entry_rank e = Z.of_nat i + 1).
Proof.
  exists (add_rank (sort_reverse snd
            (roster_rows as_hex (period_score s) (player_list s)))).
  split; [reflexivity|].
  apply (ranking_spec as_hex (period_score s) (player_list s)).
Qed.

Lemma get_leaderboard_ranking_witness :
  exists ranked,
    fst (get_leaderboard Scenario.as_hex Scenario.judged)
    = Ok (mkLeaderboard "2025-W10" "Tabs or spaces" ranked)
    /\ (forall e1 e2, ranked !! 0%nat = Some e1 -> ranked !! 1%nat = Some e2 ->
          entry_xp e2 <= entry_xp e1)
    /\ (forall e, ranked !! 1%nat = Some e -> entry_rank e = 2).
Proof.
  destruct (get_leaderboard_ranking Scenario.as_hex Scenario.judged)
    as (ranked & Hrun & _ & Hdesc & _ & _ & Hrank).
  exists ranked. split; [by rewrite Hrun|]. split.
  - intros e1 e2. apply (Hdesc 0%nat 1%nat). lia.
  - intros e. apply (Hrank 1%nat).
Defined.

(** ** The all-time leaderboard *)

(** The all-time leaderboard has one row per entry of the current roster,
    and no other row. *)
Lemma all_time_leaderboard_lists_roster (as_hex : Address -> string) s :
  exists ranked,
    get_all_time_leaderboard as_hex s = (Ok ranked, s)
    /\ map row ranked
       ≡ₚ roster_rows as_hex (lifetime_score s) (player_list s).
Proof.
  exists (add_rank (sort_reverse snd
            (roster_rows as_hex (lifetime_score s) (player_list s)))).
  split; [reflexivity|].
  apply (ranking_spec as_hex (lifetime_score s) (player_list s)).
Qed.

(** Right after [open_round] the all-time leaderboard is empty, whatever
    the lifetime scores, which [open_round] has kept. *)
Lemma all_time_leaderboard_after_open_round
    (as_hex : Address -> string) msg r s ret s' :
  exec (OpenRound msg r) s = (Ok ret, s') ->
  get_all_time_leaderboard as_hex s' = (Ok [], s')
  /\ all_time_xp s' = all_time_xp s.
Proof.
  intros Hrun. simpl in Hrun. apply public_write_Ok in Hrun.
  apply open_round_Ok in Hrun
    as (_ & _ & _ & _ & _ & _ & Hl & _ & Hxp & _).
  split; [|done].
  unfold get_all_time_leaderboard. tx_unfold. by rewrite Hl.
Qed.

(** C2 fails on the code: Alice and Bob were scored in the round of week
    10; once the round of week 11 is open they still hold their lifetime
    scores, but [get_all_time_leaderboard] walks the roster of the current
    round and lists nobody. *)
Theorem all_time_leaderboard_forgets_earlier_rounds
    (as_hex : Address -> string) :
  player_list Scenario.judged = [Scenario.alice; Scenario.bob]
  /\ all_time_xp Scenario.reopened !! Scenario.alice = Some 70
  /\ all_time_xp Scenario.reopened !! Scenario.bob = Some 55
  /\ get_all_time_leaderboard as_hex Scenario.reopened
     = (Ok [], Scenario.reopened).
Proof. repeat split; by vm_compute. Qed.

(** * More of the contract *)

(** ** Opening a round *)

Lemma subscript_str d k t :
  subscript d k = Ok (JStr t) <->
  exists fields, d = JObj fields /\ assoc k fields = Some (JStr t).
Proof.
  unfold subscript. split.
  - intros H. destruct d; try done.
    destruct (assoc k fields) eqn:E; simplify_eq. eauto.
  - intros (fields & -> & ->). done.
Qed.

Lemma as_str_Ok v t : as_str v = Ok t <-> v = JStr t.
Proof. unfold as_str. split; [by destruct v; intros [= ->] | by intros ->]. Qed.

(** What a returning [open_round] read from the agreed topic. *)
Lemma open_round_Ok_topic msg r s ret s' :
  open_round msg r s = (Ok ret, s') ->
  exists t a b,
    topic_fields r = Some (t, a, b)
    /\ current_topic s' = t /\ current_side_a s' = a
    /\ current_side_b s' = b
    /\ ret = opened_text (current_week s') t.
Proof.
  unfold open_round. tx_unfold. intros H.
  destruct (N.eqb (sender_address msg) (host s)); simpl in H; [|done].
  destruct (round_open s); simpl in H; [done|].
  destruct (week_of (datetime msg)) as [w|e]; simpl in H; [|done].
  destruct (String.eqb w (current_week s)); simpl in H; [done|].
  destruct r as [e|[topic_data|]]; simpl in H; try done.
  destruct (subscript topic_data "topic") as [v1|e] eqn:E1;
    simpl in H; [|done].
  destruct (as_str v1) as [t|e] eqn:F1; simpl in H; [|done].
  destruct (subscript topic_data "side_a") as [v2|e] eqn:E2;
    simpl in H; [|done].
  destruct (as_str v2) as [a|e] eqn:F2; simpl in H; [|done].
  destruct (subscript topic_data "side_b") as [v3|e] eqn:E3;
    simpl in H; [|done].
  destruct (as_str v3) as [b|e] eqn:F3; simpl in H; [|done].
  apply as_str_Ok in F1, F2, F3. subst v1 v2 v3.
  apply subscript_str in E1 as (fields & -> & E1).
  apply subscript_str in E2 as (fields2 & [= <-] & E2).
  apply subscript_str in E3 as (fields3 & [= <-] & E3).
  destruct (for_each _ _ _) as [[[]|e] s1] eqn:Hclear; simpl in H; [|done].
  apply clear_loop_Ok in Hclear as (Hfr & _ & _).
  rewrite pop_all_empties in H by done. simpl in H.
  exists t, a, b. simpl. rewrite E1, E2, E3.
  simplify_eq. rewrite Hfr. simpl. done.
Qed.

(** The clearing loop returns when every roster member has both a stored
    text and a period score to delete. *)
Lemma clear_loop_succeeds players : forall s,
  NoDup players ->
  (forall p, p ∈ players ->
     is_Some (submissions s !! p) /\ is_Some (scores s !! p)) ->
  exists s',
    for_each players
      (fun addr => let* _ := del_submission addr in del_score addr) s
    = (Ok tt, s').
Proof.
  induction players as [|p0 rest IH]; intros s Hnd Hall; [by eexists|].
  apply NoDup_cons in Hnd as [Hp0 Hnd].
  destruct (Hall p0 (list_elem_of_here _ _)) as [[v Hv] [n Hn]].
  simpl. unfold del_submission, del_score. tx_unfold.
  rewrite Hv. simpl. rewrite Hn. simpl.
  apply IH; [done|]. intros p Hp. simpl.
  assert (p <> p0) as Hne by (by intros ->).
  rewrite !lookup_delete_ne by done.
  apply Hall. by apply list_elem_of_further.
Qed.

(** When [open_round] returns: the guards pass, the topic is well formed
    and the loop finds what it deletes. *)
Lemma open_round_succeeds msg r s w t a b :
  sender_address msg = host s -> round_open s = false ->
  week_of (datetime msg) = Ok w -> w <> current_week s ->
  topic_fields r = Some (t, a, b) ->
  NoDup (player_list s) ->
  (forall p, p ∈ player_list s ->
     is_Some (submissions s !! p) /\ is_Some (scores s !! p)) ->
  exists s', open_round msg r s = (Ok (opened_text w t), s').
Proof.
  intros Hhost Ho Hw Hne Htopic Hnd Hall.
  unfold topic_fields in Htopic.
  destruct r as [e|[[]|]]; try done.
  destruct (assoc "topic" fields) as [[]|] eqn:E1; try done.
  destruct (assoc "side_a" fields) as [[]|] eqn:E2; try done.
  destruct (assoc "side_b" fields) as [[]|] eqn:E3; try done.
  simplify_eq.
  destruct (clear_loop_succeeds (player_list s)
              (set_current_side_b b
                 (set_current_side_a a
                    (set_current_topic t (set_current_week w s)))) Hnd)
    as [s3 Hclear]; [exact Hall|].
  pose proof Hclear as Hfr. apply clear_loop_Ok in Hfr as (Hfr & _ & _).
  unfold open_round. tx_unfold.
  rewrite Hhost, N.eqb_refl. simpl. rewrite Ho. simpl. rewrite Hw. simpl.
  apply String.eqb_neq in Hne. rewrite Hne. simpl.
  rewrite E1. simpl. rewrite E2. simpl. rewrite E3. simpl.
  rewrite Hclear. simpl.
  rewrite pop_all_empties by done. simpl.
  assert (current_topic s3 = t) as -> by (by rewrite Hfr).
  by eexists.
Qed.

(** ** What every reachable state satisfies *)

Lemma lifetime_score_nonneg s p :
  (forall q v, all_time_xp s !! q = Some v -> 0 <= v) ->
  0 <= lifetime_score s p.
Proof.
  intros H. unfold lifetime_score.
  destruct (all_time_xp s !! p) as [v|] eqn:E; simpl; [by eapply H | lia].
Qed.

Lemma stored_text_nonempty side argument : stored_text side argument <> "".
Proof. done. Qed.

Lemma filter_all_true {A} (f : A -> bool) (l : list A) :
  (forall x, x ∈ l -> f x = true) -> List.filter f l = l.
Proof.
  induction l as [|x l IH]; intros H; [done|].
  simpl. rewrite (H x) by apply list_elem_of_here.
  f_equal. apply IH. intros y Hy. apply H. by apply list_elem_of_further.
Qed.

(** With the invariant the loop of [judge_all] skips nobody. *)
Lemma judged_players_all s :
  state_inv s -> judged_players s = player_list s.
Proof.
  intros ([_ Hkeys] & Hne & _). unfold judged_players.
  apply filter_all_true. intros p Hp.
  apply Hkeys in Hp as [v Hv]. unfold has_submission. rewrite Hv. simpl.
  apply negb_true_iff, String.eqb_neq. by eapply Hne.
Qed.

Lemma init_state_inv msg : state_inv (init msg).
Proof.
  split; [apply init_roster_inv|]. simpl.
  split; [intros p v; by rewrite lookup_empty|].
  split; [intros p v; by rewrite lookup_empty|].
  split; [intros p v; by rewrite lookup_empty|].
  split; [|done]. intros _ p Hp. by apply elem_of_nil in Hp.
Qed.

Lemma open_round_state_inv msg r s :
  state_inv s -> state_inv (snd (exec (OpenRound msg r) s)).
Proof.
  intros Hinv.
  pose proof (exec_roster_inv (OpenRound msg r) s (proj1 Hinv)) as Hroster.
  simpl in *. unfold public_write in *.
  destruct (open_round msg r s) as [[ret|e] s1] eqn:Hrun; [|done].
  destruct Hinv as (Hr & Hne & Hsc & Hxp & Hclosed & Hflags).
  apply open_round_Ok in Hrun
    as (_ & _ & _ & _ & Ho & Hj & Hl & _ & Hall & Hsubs & Hscs).
  simpl in *. split; [done|]. split; [|split; [|split; [|split]]].
  - intros p v. rewrite Hsubs. case_decide; [done | apply Hne].
  - intros p v. rewrite Hscs. case_decide as Hin; [done|].
    intros Hv. by apply Hsc in Hv as [? _].
  - intros p v. rewrite Hall. apply Hxp.
  - by rewrite Ho.
  - by rewrite Ho, Hj.
Qed.

Lemma submit_argument_state_inv msg side argument s :
  state_inv s ->
  state_inv (snd (exec (SubmitArgument msg side argument) s)).
Proof.
  intros Hinv.
  pose proof (exec_roster_inv (SubmitArgument msg side argument) s
                (proj1 Hinv)) as Hroster.
  simpl in *. unfold public_write in *.
  destruct (round_open s) eqn:Ho.
  2:{ unfold submit_argument. tx_unfold. by rewrite Ho. }
  destruct (judging_done s) eqn:Hj.
  { unfold submit_argument. tx_unfold. rewrite Ho. simpl. by rewrite Hj. }
  rewrite (submit_argument_open _ _ _ _ Ho Hj) in *.
  destruct (negb _); [exact Hinv|].
  destruct (_ <? 20)%nat; [exact Hinv|].
  destruct (600 <? _)%nat; [exact Hinv|].
  destruct Hinv as (Hr & Hne & Hsc & Hxp & Hclosed & Hflags).
  simpl in *. split; [done|].
  assert (forall p, p ∈ player_list s ->
            p ∈ player_list
                  (match submissions s !! sender_address msg with
                   | Some _ => s
                   | None => set_player_list
                               (player_list s ++ [sender_address msg]) s
                   end)) as Hgrow.
  { intros p Hp. destruct (submissions s !! sender_address msg); [done|].
    simpl. apply elem_of_app. by left. }
  assert (forall (f : State -> bool),
            (forall v s0, f (set_player_list v s0) = f s0) ->
            f (match submissions s !! sender_address msg with
               | Some _ => s
               | None => set_player_list
                           (player_list s ++ [sender_address msg]) s
               end) = f s) as Hflag.
  { intros f Hf. by destruct (submissions s !! sender_address msg). }
  unfold set_submissions. simpl.
  split; [|split; [|split; [|split]]].
  - intros p v. destruct (decide (sender_address msg = p)) as [->|Hp].
    + rewrite lookup_insert_eq. intros [= <-]. apply stored_text_nonempty.
    + rewrite lookup_insert_ne by done.
      destruct (submissions s !! sender_address msg); apply Hne.
  - intros p v Hv.
    assert (scores s !! p = Some v) as Hv'
      by (by destruct (submissions s !! sender_address msg)).
    destruct (Hsc p v Hv') as (Hin & Hrange & Hle).
    split; [by apply Hgrow|]. split; [done|].
    unfold lifetime_score in *.
    by destruct (submissions s !! sender_address msg).
  - intros p v Hv. apply (Hxp p v).
    by destruct (submissions s !! sender_address msg).
  - rewrite (Hflag round_open) by (by intros v []). by rewrite Ho.
  - rewrite (Hflag round_open), (Hflag judging_done) by (by intros v []).
    done.
Qed.

Lemma judge_all_state_inv msg oracle s :
  state_inv s -> state_inv (snd (exec (JudgeAll msg oracle) s)).
Proof.
  intros Hinv.
  pose proof (exec_roster_inv (JudgeAll msg oracle) s (proj1 Hinv))
    as Hroster.
  pose proof (judged_players_all s Hinv) as Hall.
  simpl in *. unfold public_write in *.
  destruct (judge_all msg oracle s) as [[ret|e] s'] eqn:Hrun; [|done].
  apply judge_all_Ok in Hrun as (_ & _ & _ & _ & s1 & Hloop & ->).
  destruct Hinv as (Hr & Hne & Hsc & Hxp & Hclosed & Hflags).
  pose proof (judge_loop_frame oracle (current_topic s) (current_side_a s)
    (current_side_b s) (player_list s) 0 s) as Hfr.
  rewrite Hloop in Hfr. simpl in Hfr.
  destruct (judge_loop_Ok _ _ _ _ _ _ _ _ (proj1 Hr) Hloop) as [Hout Hin].
  unfold judged_players in Hall. rewrite Hall in Hout, Hin.
  assert (player_list s1 = player_list s) as Hl by (by rewrite Hfr).
  assert (submissions s1 = submissions s) as Hs by (by rewrite Hfr).
  (* what the loop did for a roster member *)
  assert (forall p, p ∈ player_list s ->
            exists xp, 0 <= xp <= 100 /\ scores s1 !! p = Some xp
              /\ all_time_xp s1 !! p = Some (lifetime_score s p + xp))
    as Hmember.
  { intros p Hp. apply list_elem_of_lookup in Hp as [i Hi].
    destruct (Hin i p Hi) as (xp & Hxp' & Hsc' & Hall').
    exists xp. split; [by eapply reply_score_range | done]. }
  clear Hfr Hloop Hin Hall.
  destruct s1 as [? ? ? ? subs1 sc1 xps1 players1 ? ? ?].
  unfold state_inv, roster_inv in *.
  unfold set_judging_done, set_round_open, lifetime_score.
  simpl in *. subst subs1 players1.
  split; [done|]. split; [done|].
  split; [|split; [|split; [|done]]].
  - intros p v Hv.
    destruct (decide (p ∈ player_list s)) as [Hp|Hp].
    + destruct (Hmember p Hp) as (xp & Hrange & Hsc' & Hall').
      assert (v = xp) as -> by congruence.
      split; [done|]. split; [done|].
      rewrite Hall'. simpl.
      pose proof (lifetime_score_nonneg s p Hxp). lia.
    + destruct (Hout p Hp) as [Hsame _]. rewrite Hsame in Hv.
      by apply Hsc in Hv as [? _].
  - intros p v Hv.
    destruct (decide (p ∈ player_list s)) as [Hp|Hp].
    + destruct (Hmember p Hp) as (xp & Hrange & Hsc' & Hall').
      assert (Some v = Some (lifetime_score s p + xp)) as Heq
        by (etrans; [symmetry; exact Hv | exact Hall']).
      injection Heq as ->.
      pose proof (lifetime_score_nonneg s p Hxp). lia.
    + destruct (Hout p Hp) as [_ Hsame].
      apply (Hxp p v). etrans; [symmetry; exact Hsame | exact Hv].
  - intros _ p Hp.
    destruct (Hmember p Hp) as (xp & _ & Hsc' & _). eauto.
Qed.

(** Every call keeps the invariant. *)
Lemma exec_state_inv c s : state_inv s -> state_inv (snd (exec c s)).
Proof.
  destruct c as [msg r|msg side argument|msg oracle].
  - apply open_round_state_inv.
  - apply submit_argument_state_inv.
  - apply judge_all_state_inv.
Qed.

Lemma run_state_inv cs : forall s, state_inv s -> state_inv (run cs s).
Proof.
  induction cs as [|c cs IH]; intros s Hinv; [done|].
  simpl. apply IH. by apply exec_state_inv.
Qed.

Lemma reachable_state_inv s : reachable s -> state_inv s.
Proof. intros (msg0 & cs & ->). apply run_state_inv, init_state_inv. Qed.

Lemma reachable_run cs s : reachable s -> reachable (run cs s).
Proof.
  intros (msg0 & cs0 & ->). exists msg0, (cs0 ++ cs). by rewrite run_app.
Qed.

(** ** Who may open and judge *)

(** X1: a caller other than the host can neither open a round nor trigger
    the judging: in every state, and whatever the oracles answer, both
    calls fail with Unauthorized and change nothing. *)
Theorem host_only_operations msg s :
  sender_address msg <> host s ->
  (forall topic_oracle,
     exec (OpenRound msg topic_oracle) s = (Raise Unauthorized, s))
  /\ (forall oracle, exec (JudgeAll msg oracle) s = (Raise Unauthorized, s)).
Proof.
  intros Hne. split.
  - intros r. simpl. unfold public_write.
    destruct (open_round_guards msg r s) as (-> & _); done.
  - intros oracle. simpl. unfold public_write.
    rewrite judge_all_unfold.
    apply N.eqb_neq in Hne. by rewrite Hne.
Qed.

Lemma host_only_operations_witness :
  let m := Scenario.at_time Scenario.alice Scenario.week11 in
  exec (OpenRound m Scenario.topic_reply) Scenario.judged
  = (Raise Unauthorized, Scenario.judged)
  /\ exec (JudgeAll m Scenario.fair_oracle) Scenario.submitted
     = (Raise Unauthorized, Scenario.submitted).
Proof.
  intros m. split.
  - apply (host_only_operations m Scenario.judged). vm_compute. discriminate.
  - apply (host_only_operations m Scenario.submitted).
    vm_compute. discriminate.
Defined.

(** X2: for the host, [open_round] fails with RoundAlreadyOpen while a
    round is open, before the timestamp is even read; with the round
    closed, a timestamp that does not start with a valid date fails the
    call with the error of the date; in both cases nothing changes. *)
Theorem open_round_rejections msg topic_oracle s :
  sender_address msg = host s ->
  (round_open s = true ->
     exec (OpenRound msg topic_oracle) s = (Raise RoundAlreadyOpen, s))
  /\ (round_open s = false ->
      forall e, week_of (datetime msg) = Raise e ->
        exec (OpenRound msg topic_oracle) s = (Raise e, s)).
Proof.
  intros Hhost. split.
  - intros Ho. simpl. unfold public_write.
    destruct (open_round_guards msg topic_oracle s) as (_ & -> & _); done.
  - intros Ho e Hw. simpl. unfold public_write, open_round. tx_unfold.
    rewrite Hhost, N.eqb_refl. simpl. rewrite Ho. simpl. by rewrite Hw.
Qed.

Lemma open_round_rejections_witness :
  exec (OpenRound (Scenario.at_time Scenario.host_addr Scenario.week11)
          Scenario.topic_reply) Scenario.submitted
  = (Raise RoundAlreadyOpen, Scenario.submitted)
  /\ exec (OpenRound (Scenario.at_time Scenario.host_addr "2025-02-30T09:00:00Z")
             Scenario.topic_reply) Scenario.judged
     = (Raise (PyError ValueError), Scenario.judged).
Proof.
  split.
  - destruct (open_round_rejections
                (Scenario.at_time Scenario.host_addr Scenario.week11)
                Scenario.topic_reply Scenario.submitted) as [Hopen _].
    + vm_compute. reflexivity.
    + apply Hopen. vm_compute. reflexivity.
  - destruct (open_round_rejections
                (Scenario.at_time Scenario.host_addr "2025-02-30T09:00:00Z")
                Scenario.topic_reply Scenario.judged) as [_ Hdate].
    + vm_compute. reflexivity.
    + apply Hdate; vm_compute; reflexivity.
Defined.

(** ** A new round *)

(** X3: in a reachable state, a call of [open_round] that returns starts
    the round clean: no stored text, no period score and an empty roster;
    the round is open and not judged, its week is the one the timestamp
    derives, and lifetime scores and host are untouched. *)
Theorem open_round_starts_clean msg topic_oracle s ret s' :
  reachable s ->
  exec (OpenRound msg topic_oracle) s = (Ok ret, s') ->
  submissions s' = ∅ /\ scores s' = ∅ /\ player_list s' = []
  /\ round_open s' = true /\ judging_done s' = false
  /\ week_of (datetime msg) = Ok (current_week s')
  /\ all_time_xp s' = all_time_xp s /\ host s' = host s.
Proof.
  intros Hreach Hrun. apply reachable_state_inv in Hreach.
  destruct Hreach as ([_ Hkeys] & _ & Hsc & _).
  simpl in Hrun. apply public_write_Ok in Hrun.
  apply open_round_Ok in Hrun
    as (_ & _ & Hw & _ & Ho & Hj & Hl & Hhost & Hxp & Hsubs & Hscs).
  repeat split; try done.
  - apply map_eq. intros p. rewrite Hsubs, lookup_empty.
    case_decide as Hin; [done|].
    apply eq_None_not_Some. intros Hsome. by apply Hin, Hkeys.
  - apply map_eq. intros p. rewrite Hscs, lookup_empty.
    case_decide as Hin; [done|].
    apply eq_None_not_Some. intros [v Hv]. apply Hin. by apply (Hsc p v).
Qed.

Lemma open_round_starts_clean_witness :
  submissions Scenario.reopened = ∅ /\ scores Scenario.reopened = ∅
  /\ player_list Scenario.reopened = []
  /\ all_time_xp Scenario.reopened = all_time_xp Scenario.judged.
Proof.
  destruct (open_round_starts_clean
              (Scenario.at_time Scenario.host_addr Scenario.week11)
              Scenario.topic_reply Scenario.judged
              "Round 2025-W11 opened! Topic: Tabs or spaces"
              Scenario.reopened)
    as (Hs & Hsc & Hl & _ & _ & _ & Hxp & _).
  - exists (Scenario.at_time Scenario.host_addr Scenario.week10),
      Scenario.round10. vm_compute. reflexivity.
  - vm_compute. reflexivity.
  - split; [exact Hs|]. split; [exact Hsc|]. split; [exact Hl | exact Hxp].
Defined.

(** X4: a call of [open_round] that returns has read the topic and the two
    sides from the string fields ["topic"], ["side_a"] and ["side_b"] of the
    agreed reply, and names week and topic in what it returns; with a reply
    that is not a JSON object with these three string fields the call fails
    and changes nothing. *)
Theorem open_round_reads_topic msg topic_oracle s :
  (forall ret s',
     exec (OpenRound msg topic_oracle) s = (Ok ret, s') ->
     exists t a b,
       topic_fields topic_oracle = Some (t, a, b)
       /\ current_topic s' = t /\ current_side_a s' = a
       /\ current_side_b s' = b
       /\ ret = opened_text (current_week s') t)
  /\ (topic_fields topic_oracle = None ->
      exists e, exec (OpenRound msg topic_oracle) s = (Raise e, s)).
Proof.
  split.
  - intros ret s' Hrun. simpl in Hrun. apply public_write_Ok in Hrun.
    by apply open_round_Ok_topic in Hrun.
  - intros Hnone. simpl. unfold public_write.
    destruct (open_round msg topic_oracle s) as [[ret|e] s1] eqn:Hrun;
      [|eauto].
    apply open_round_Ok_topic in Hrun as (t & a & b & Hsome & _).
    congruence.
Qed.

Lemma open_round_reads_topic_witness :
  current_topic Scenario.opened = "Tabs or spaces"
  /\ current_side_a Scenario.opened = "tabs"
  /\ current_side_b Scenario.opened = "spaces"
  /\ exists e,
       exec (OpenRound (Scenario.at_time Scenario.host_addr Scenario.week10)
               (Agreed (Some (JObj [("topic", JStr "Tabs or spaces")]))))
         Scenario.deployed
       = (Raise e, Scenario.deployed).
Proof.
  split; [|split; [|split]].
  1-3: destruct (open_round_reads_topic
                   (Scenario.at_time Scenario.host_addr Scenario.week10)
                   Scenario.topic_reply Scenario.deployed) as [Hread _];
       destruct (Hread "Round 2025-W10 opened! Topic: Tabs or spaces"
                   Scenario.opened) as (t & a & b & Hf & Ht & Ha & Hb & _);
       [vm_compute; reflexivity|];
       vm_compute in Hf; injection Hf as <- <- <-.
  - exact Ht.
  - exact Ha.
  - exact Hb.
  - destruct (open_round_reads_topic
                (Scenario.at_time Scenario.host_addr Scenario.week10)
                (Agreed (Some (JObj [("topic", JStr "Tabs or spaces")])))
                Scenario.deployed) as [_ Hfail].
    apply Hfail. vm_compute. reflexivity.
Defined.

(** X5: in a reachable state the clearing loop of [open_round] never
    stumbles: for the host, with the round closed, a timestamp of a week
    other than the current one and a well-formed topic, [open_round]
    returns.  The week is only compared with the current one. *)
Theorem open_round_succeeds_when_reachable msg topic_oracle s w t a b :
  reachable s ->
  sender_address msg = host s -> round_open s = false ->
  week_of (datetime msg) = Ok w -> w <> current_week s ->
  topic_fields topic_oracle = Some (t, a, b) ->
  exists s', exec (OpenRound msg topic_oracle) s = (Ok (opened_text w t), s').
Proof.
  intros Hreach Hhost Ho Hw Hne Htopic.
  apply reachable_state_inv in Hreach.
  destruct Hreach as ([Hnd Hkeys] & _ & _ & _ & Hclosed & _).
  destruct (open_round_succeeds msg topic_oracle s w t a b
              Hhost Ho Hw Hne Htopic Hnd) as [s' Hrun].
  { intros p Hp. split; [by apply Hkeys | by apply Hclosed]. }
  exists s'. simpl. unfold public_write. by rewrite Hrun.
Qed.

Lemma open_round_succeeds_when_reachable_witness :
  exists s',
    exec (OpenRound (Scenario.at_time Scenario.host_addr Scenario.week10)
            Scenario.topic_reply) Scenario.judged_twice
    = (Ok (opened_text "2025-W10" "Tabs or spaces"), s').
Proof.
  apply (open_round_succeeds_when_reachable
           (Scenario.at_time Scenario.host_addr Scenario.week10)
           Scenario.topic_reply Scenario.judged_twice
           "2025-W10" "Tabs or spaces" "tabs" "spaces").
  - exists (Scenario.at_time Scenario.host_addr Scenario.week10),
      (Scenario.round10 ++ Scenario.round11). reflexivity.
  - vm_compute. reflexivity.
  - vm_compute. reflexivity.
  - vm_compute. reflexivity.
  - vm_compute. discriminate.
  - vm_compute. reflexivity.
Defined.

(** ** What a submission touches *)

(** X6: whatever its outcome, [submit_argument] changes nothing but the
    caller's stored text and the roster, and the roster only by adding
    the caller at its end: scores, lifetime scores, week, topic, sides,
    flags and host stay, and so does every other participant's text. *)
Theorem submit_argument_frame msg side argument s :
  let s' := snd (exec (SubmitArgument msg side argument) s) in
  scores s' = scores s /\ all_time_xp s' = all_time_xp s
  /\ current_week s' = current_week s /\ current_topic s' = current_topic s
  /\ current_side_a s' = current_side_a s
  /\ current_side_b s' = current_side_b s
  /\ round_open s' = round_open s /\ judging_done s' = judging_done s
  /\ host s' = host s
  /\ (forall p, p <> sender_address msg ->
        submissions s' !! p = submissions s !! p)
  /\ (player_list s' = player_list s
      \/ player_list s' = player_list s ++ [sender_address msg]).
Proof.
  intros s'. subst s'. simpl.
  repeat (split;
    [apply preserves_public_write, submit_argument_preserves;
       by intros v []|]).
  unfold public_write.
  destruct (round_open s) eqn:Ho.
  2:{ unfold submit_argument. tx_unfold. rewrite Ho. simpl. auto. }
  destruct (judging_done s) eqn:Hj.
  { unfold submit_argument. tx_unfold. rewrite Ho. simpl. rewrite Hj.
    simpl. auto. }
  rewrite (submit_argument_open _ _ _ _ Ho Hj).
  destruct (negb _); [simpl; auto|].
  destruct (_ <? 20)%nat; [simpl; auto|].
  destruct (600 <? _)%nat; [simpl; auto|].
  unfold set_submissions. simpl. split.
  - intros p Hp. rewrite lookup_insert_ne by done.
    by destruct (submissions s !! sender_address msg).
  - destruct (submissions s !! sender_address msg); simpl; auto.
Qed.

(** ** From the stored text back to side and argument *)

Lemma substring_all s : String.substring 0 (String.length s) s = s.
Proof. induction s as [|c s IH]; simpl; [done | by rewrite IH]. Qed.

Lemma stored_text_chars side argument :
  valid_side side ->
  stored_text side argument
  = String "S" (String "I" (String "D" (String "E" (String "_"
      (String (if String.eqb side "a" then "A" else "B")%char
         (String ":" (String ":" argument))))))).
Proof. by intros [-> | ->]. Qed.

Lemma split_once_stored (c : ascii) argument :
  c = "A"%char \/ c = "B"%char ->
  Py.split_once "::"
    (String "S" (String "I" (String "D" (String "E" (String "_"
       (String c (String ":" (String ":" argument))))))))
  = (String "S" (String "I" (String "D" (String "E" (String "_"
       (String c EmptyString))))), Some argument).
Proof.
  intros [-> | ->]; cbn; rewrite Nat.sub_0_r, substring_all;
    by destruct argument.
Qed.

(** X7: what [submit_argument] stores, [judge_all] reads back exactly:
    for a valid side, the request built from the stored text carries the
    position of that side and the argument as it was submitted, also when
    the argument itself contains ["::"]. *)
Theorem stored_text_round_trip topic side_a side_b side argument :
  valid_side side ->
  request_of topic side_a side_b (stored_text side argument)
  = mkRequest topic (if String.eqb side "a" then side_a else side_b)
      argument.
Proof.
  intros Hside. unfold request_of.
  rewrite (stored_text_chars side argument Hside).
  rewrite split_once_stored by (destruct Hside as [-> | ->]; auto).
  by destruct Hside as [-> | ->].
Qed.

Lemma stored_text_round_trip_witness :
  request_of "T" "yes" "no" (stored_text "b" "either::or, take your pick")
  = mkRequest "T" "no" "either::or, take your pick".
Proof.
  apply (stored_text_round_trip "T" "yes" "no" "b"
           "either::or, take your pick").
  right. reflexivity.
Defined.

(** ** When judging returns, and what it leaves alone *)

(** With a score from every reply and room in every lifetime score, the
    loop goes through. *)
Lemma judge_loop_succeeds oracle t a b players :
  forall k s,
    NoDup players ->
    (forall i p, List.filter (has_submission s) players !! i = Some p ->
       exists xp,
         reply_score (oracle (k + i)%nat
           (request_of t a b (default "" (submissions s !! p)))) = Ok xp) ->
    (forall p, p ∈ players ->
       0 <= lifetime_score s p /\ lifetime_score s p + 100 < 2 ^ 256) ->
    exists s', judge_loop oracle t a b players k s = (Ok tt, s').
Proof.
  induction players as [|p0 rest IH]; intros k s Hnd Hreply Hroom;
    [by eexists|].
  apply NoDup_cons in Hnd as [Hp0 Hnd].
  destruct (has_submission s p0) eqn:Hsub.
  - rewrite judge_loop_turn by done.
    destruct (Hreply 0%nat p0) as [xp0 Hxp0]; [simpl; by rewrite Hsub|].
    rewrite Nat.add_0_r in Hxp0. rewrite Hxp0.
    pose proof (reply_score_range _ _ Hxp0) as Hrange.
    destruct (Hroom p0 (list_elem_of_here _ _)) as [Hlo Hhi].
    assert (fits_u256 (lifetime_score s p0 + xp0) = true) as ->.
    { unfold fits_u256. apply andb_true_intro. split; [lia|].
      apply Z.ltb_lt. lia. }
    pose proof (credit_only_scores p0 xp0 s) as Hfr.
    apply IH; [done| |].
    + intros i p Hi.
      rewrite (submissions_frame _ _ Hfr).
      replace (S k + i)%nat with (k + S i)%nat by lia.
      apply Hreply. simpl. rewrite Hsub. simpl.
      erewrite List.filter_ext; [exact Hi|].
      intros q. symmetry. by apply has_submission_frame.
    + intros p Hp.
      assert (p0 <> p) as Hne by (by intros ->).
      unfold lifetime_score, credit. simpl.
      rewrite lookup_insert_ne by done.
      apply Hroom. by apply list_elem_of_further.
  - rewrite judge_loop_skip by done. apply IH; [done| |].
    + intros i p Hi. apply Hreply. simpl. by rewrite Hsub.
    + intros p Hp. apply Hroom. by apply list_elem_of_further.
Qed.

(** X8: in a reachable state with an open round and a roster that is not
    empty, the host's [judge_all] returns as soon as the reply agreed for
    every roster member yields a score and every member's lifetime score
    leaves room for 100 more points below 2^256. *)
Theorem judge_all_succeeds msg oracle s :
  reachable s ->
  sender_address msg = host s -> round_open s = true ->
  player_list s <> [] ->
  (forall i p, player_list s !! i = Some p ->
     exists xp, reply_score (oracle i (request_for s p)) = Ok xp) ->
  (forall p, p ∈ player_list s -> lifetime_score s p + 100 < 2 ^ 256) ->
  exists s',
    exec (JudgeAll msg oracle) s
    = (Ok "Judging complete! Call get_leaderboard() to see results.", s').
Proof.
  intros Hreach Hhost Ho Hroster Hreply Hroom.
  apply reachable_state_inv in Hreach.
  pose proof (judged_players_all s Hreach) as Hall.
  destruct Hreach as ([Hnd _] & _ & _ & Hxp & _ & Hflags).
  rewrite Ho in Hflags. simpl in Hflags.
  destruct (judge_loop_succeeds oracle (current_topic s) (current_side_a s)
              (current_side_b s) (player_list s) 0 s Hnd) as [s1 Hloop].
  - intros i p Hi. unfold judged_players in Hall. rewrite Hall in Hi.
    simpl. apply (Hreply i p Hi).
  - intros p Hp. split; [by apply lifetime_score_nonneg | by apply Hroom].
  - simpl. unfold public_write. rewrite judge_all_unfold.
    rewrite Hhost, N.eqb_refl, Ho, Hflags. simpl.
    destruct (player_list s) as [|p ps] eqn:Hps; [done|].
    change (negb (0 <? length (p :: ps))%nat) with false. cbv iota.
    rewrite Hloop. eauto.
Qed.

Lemma judge_all_succeeds_witness :
  exists s',
    exec (JudgeAll (Scenario.at_time Scenario.host_addr Scenario.week10)
            Scenario.fair_oracle) Scenario.submitted
    = (Ok "Judging complete! Call get_leaderboard() to see results.", s').
Proof.
  apply (judge_all_succeeds
           (Scenario.at_time Scenario.host_addr Scenario.week10)
           Scenario.fair_oracle Scenario.submitted).
  - exists (Scenario.at_time Scenario.host_addr Scenario.week10),
      [OpenRound (Scenario.at_time Scenario.host_addr Scenario.week10)
         Scenario.topic_reply;
       SubmitArgument (Scenario.at_time Scenario.alice Scenario.week10)
         "a" Scenario.text25;
       SubmitArgument (Scenario.at_time Scenario.bob Scenario.week10)
         "b" Scenario.text30].
    vm_compute. reflexivity.
  - vm_compute. reflexivity.
  - vm_compute. reflexivity.
  - vm_compute. discriminate.
  - intros [|[|i]] p Hi; vm_compute in Hi; [| |discriminate Hi].
    + exists 70. vm_compute. reflexivity.
    + exists 55. vm_compute. reflexivity.
  - intros p Hp. vm_compute in Hp.
    assert (lifetime_score Scenario.submitted p = 0) as ->.
    { vm_compute. reflexivity. }
    vm_compute. reflexivity.
Defined.

(** The loop touches the scores of the participants it walks, nobody
    else's, whether it returns or raises. *)
Lemma judge_loop_outside oracle t a b players p :
  p ∉ players ->
  forall k s,
    scores (snd (judge_loop oracle t a b players k s)) !! p = scores s !! p
    /\ all_time_xp (snd (judge_loop oracle t a b players k s)) !! p
       = all_time_xp s !! p.
Proof.
  induction players as [|p0 rest IH]; intros Hp k s; [done|].
  apply not_elem_of_cons in Hp as [Hne Hp].
  destruct (has_submission s p0) eqn:Hsub.
  - rewrite judge_loop_turn by done.
    destruct (reply_score _) as [xp|e]; [|done].
    destruct (fits_u256 _).
    + destruct (IH Hp (S k) (credit p0 xp s)) as [-> ->].
      unfold credit. simpl. by rewrite !lookup_insert_ne.
    + unfold set_scores. simpl. by rewrite lookup_insert_ne.
  - rewrite judge_loop_skip by done. by apply IH.
Qed.

(** X9: whatever its outcome, [judge_all] leaves the stored texts, the
    roster, the week, the topic, the sides and the host as they are, and
    gives or takes no score of a participant who is not on the roster. *)
Theorem judge_all_frame msg oracle s :
  let s' := snd (exec (JudgeAll msg oracle) s) in
  submissions s' = submissions s /\ player_list s' = player_list s
  /\ current_week s' = current_week s /\ current_topic s' = current_topic s
  /\ current_side_a s' = current_side_a s
  /\ current_side_b s' = current_side_b s /\ host s' = host s
  /\ (forall p, p ∉ player_list s ->
        scores s' !! p = scores s !! p
        /\ all_time_xp s' !! p = all_time_xp s !! p).
Proof.
  intros s'. subst s'. simpl.
  repeat (split;
    [apply preserves_public_write, judge_all_preserves; by intros v []|]).
  intros p Hp. unfold public_write. rewrite judge_all_unfold.
  pose proof (judge_loop_outside oracle (current_topic s) (current_side_a s)
    (current_side_b s) (player_list s) p Hp 0 s) as Hout.
  destruct (negb (N.eqb _ _)); [done|].
  destruct (negb (round_open s)); [done|].
  destruct (judging_done s); [done|].
  destruct (negb (0 <? _)%nat); [done|].
  destruct (judge_loop _ _ _ _ _ _ _) as [[[]|e] s1]; [|done].
  unfold set_judging_done, set_round_open. simpl in *. done.
Qed.

(** ** A judged round stays as it is *)

(** X10: once [judge_all] has returned, the round is frozen: until the
    next [open_round], every [submit_argument] and every further
    [judge_all] fails, so no sequence of such calls changes anything; in
    particular nobody is scored twice for one round. *)
Theorem judged_round_is_frozen msg oracle s ret s' cs :
  exec (JudgeAll msg oracle) s = (Ok ret, s') ->
  Forall (fun c => is_open_round c = false) cs ->
  run cs s' = s'
  /\ Forall (fun c => exists e, fst (exec c s') = Raise e) cs.
Proof.
  intros Hrun Hcs. simpl in Hrun. apply public_write_Ok in Hrun.
  apply judge_all_Ok in Hrun as (_ & _ & _ & _ & s1 & _ & ->).
  set (s' := set_judging_done true (set_round_open false s1)).
  assert (round_open s' = false) as Hclosed by done.
  clearbody s'.
  assert (forall c, is_open_round c = false ->
            exists e, exec c s' = (Raise e, s')) as Hfail.
  { intros [m r|m side argument|m o] Hc; [done| |]; simpl;
      unfold public_write.
    - unfold submit_argument. tx_unfold. rewrite Hclosed. simpl. eauto.
    - rewrite judge_all_unfold, Hclosed. simpl.
      destruct (negb (N.eqb _ _)); eauto. }
  induction Hcs as [|c cs Hc Hcs IH]; [done|].
  destruct (Hfail c Hc) as [e He]. simpl. rewrite He. simpl.
  destruct IH as [-> Hall]. split; [done|].
  constructor; [|done]. exists e. by rewrite He.
Qed.

Lemma judged_round_is_frozen_witness :
  run [SubmitArgument (Scenario.at_time Scenario.carol Scenario.week10)
         "a" Scenario.text25;
       JudgeAll (Scenario.at_time Scenario.host_addr Scenario.week10)
         Scenario.fair_oracle] Scenario.judged
  = Scenario.judged.
Proof.
  apply (judged_round_is_frozen
           (Scenario.at_time Scenario.host_addr Scenario.week10)
           Scenario.fair_oracle Scenario.submitted
           "Judging complete! Call get_leaderboard() to see results."
           Scenario.judged).
  - vm_compute. reflexivity.
  - repeat constructor.
Defined.

(** ** The read methods together *)

(** X11: [get_all_time_leaderboard] returns one row per entry of the
    current roster, pairing the participant with their lifetime score (0
    when they have none); the rows are in descending order of lifetime
    score, rows with equal scores keep roster order, and the row at place
    [i] has rank [i + 1].  The storage is not changed. *)
Theorem get_all_time_leaderboard_ranking (as_hex : Address -> string) s :
  exists ranked,
    get_all_time_leaderboard as_hex s = (Ok ranked, s)
    /\ map row ranked
       ≡ₚ roster_rows as_hex (lifetime_score s) (player_list s)
    /\ (forall i j e1 e2, (i < j)%nat ->
          ranked !! i = Some e1 -> ranked !! j = Some e2 ->
          entry_xp e2 <= entry_xp e1)
    /\ (forall i j p q, (i < j)%nat ->
          player_list s !! i = Some p -> player_list s !! j = Some q ->
          lifetime_score s p = lifetime_score s q ->
          comes_before (map row ranked)
            (as_hex p, lifetime_score s p) (as_hex q, lifetime_score s q))
    /\ (forall i e, ranked !! i = Some e -> entry_rank e = Z.of_nat i + 1).
Proof.
  exists (add_rank (sort_reverse snd
            (roster_rows as_hex (lifetime_score s) (player_list s)))).
  split; [reflexivity|].
  destruct (ranking_spec as_hex (lifetime_score s) (player_list s))
    as (Hperm & Hdesc & _ & Hties & Hrank).
  done.
Qed.

Lemma row_of_roster_member (as_hex : Address -> string) score players
    ranked p :
  map row ranked ≡ₚ roster_rows as_hex score players ->
  p ∈ players ->
  exists e, e ∈ ranked /\ entry_address e = as_hex p /\ entry_xp e = score p.
Proof.
  intros Hperm Hp.
  assert (In (as_hex p, score p) (map row ranked)) as Hin.
  { eapply Permutation_in; [symmetry; exact Hperm|].
    unfold roster_rows. apply in_map_iff. exists p.
    split; [done | by apply list_elem_of_In]. }
  apply in_map_iff in Hin as (e & He & Hin).
  exists e. split; [by apply list_elem_of_In|].
  unfold row in He. by simplify_eq.
Qed.

(** X12: the three read methods agree.  For a roster member whose address
    text [Address] reads back, [get_my_score] returns the period score
    shown in that member's row of [get_leaderboard] and the lifetime score
    shown in their row of [get_all_time_leaderboard]. *)
Theorem get_my_score_matches_leaderboards
    (as_hex : Address -> string) (Address_of_str : string -> option Address)
    s p :
  p ∈ player_list s ->
  Address_of_str (as_hex p) = Some p ->
  exists mine board all_time e1 e2,
    get_my_score Address_of_str (as_hex p) s = (Ok mine, s)
    /\ get_leaderboard as_hex s = (Ok board, s)
    /\ get_all_time_leaderboard as_hex s = (Ok all_time, s)
    /\ e1 ∈ lb_entries board /\ entry_address e1 = as_hex p
    /\ entry_xp e1 = ms_this_week_xp mine
    /\ e2 ∈ all_time /\ entry_address e2 = as_hex p
    /\ entry_xp e2 = ms_lifetime_xp mine.
Proof.
  intros Hp Haddr.
  destruct (ranking_spec as_hex (period_score s) (player_list s))
    as (Hperm1 & _).
  destruct (ranking_spec as_hex (lifetime_score s) (player_list s))
    as (Hperm2 & _).
  destruct (row_of_roster_member _ _ _ _ p Hperm1 Hp) as (e1 & Hin1 & Ha1 & Hx1).
  destruct (row_of_roster_member _ _ _ _ p Hperm2 Hp) as (e2 & Hin2 & Ha2 & Hx2).
  exists (mkMyScore (as_hex p) (period_score s p) (lifetime_score s p)).
  exists (mkLeaderboard (current_week s) (current_topic s)
            (add_rank (sort_reverse snd
               (roster_rows as_hex (period_score s) (player_list s))))),
    (add_rank (sort_reverse snd
       (roster_rows as_hex (lifetime_score s) (player_list s)))), e1, e2.
  split; [unfold get_my_score; by rewrite Haddr|].
  split; [reflexivity|]. split; [reflexivity|].
  simpl. done.
Qed.

Lemma get_my_score_matches_leaderboards_witness :
  exists mine e1,
    get_my_score Scenario.address_of_str (Scenario.as_hex Scenario.bob)
      Scenario.judged = (Ok mine, Scenario.judged)
    /\ entry_address e1 = Scenario.as_hex Scenario.bob
    /\ entry_xp e1 = ms_this_week_xp mine.
Proof.
  destruct (get_my_score_matches_leaderboards Scenario.as_hex
              Scenario.address_of_str Scenario.judged Scenario.bob)
    as (mine & board & all_time & e1 & e2 & Hmine & _ & _ & _ & Ha & Hx & _).
  - apply (bool_decide_unpack _). vm_compute. exact I.
  - vm_compute. reflexivity.
  - exists mine, e1. split; [exact Hmine|]. split; [exact Ha | exact Hx].
Defined.

(** X13: [get_round_info] never fails and never changes the storage; in
    an open round its player count is the number of distinct participants
    who have submitted, however often each of them did. *)
Theorem get_round_info_counts_submitters s
    (calls : list (message * string * string)) :
  roster_inv s -> round_open s = true -> judging_done s = false ->
  Forall (fun c => valid_side (snd (fst c)) /\ valid_text (snd c)) calls ->
  let s' := run (map submit_call calls) s in
  exists info,
    get_round_info s' = (Ok info, s')
    /\ info_player_count info
       = size (list_to_set (player_list s ++ map submitter calls) : gset N)
    /\ info_round_open info = true /\ info_judging_done info = false
    /\ info_week info = current_week s /\ info_topic info = current_topic s.
Proof.
  intros Hinv Ho Hj Hvalid s'.
  destruct (run_submissions s calls Hinv Ho Hj Hvalid)
    as (_ & Ho' & Hj' & Hl & _).
  fold s' in Ho', Hj', Hl.
  eexists. split; [reflexivity|]. simpl.
  split; [by rewrite Hl, length_first_seen|].
  split; [done|]. split; [done|].
  assert (Forall (fun c => is_open_round c = false) (map submit_call calls))
    as Hcs.
  { apply List.Forall_forall. intros c Hc.
    apply in_map_iff in Hc as (x & <- & _). done. }
  destruct (run_keeps_week _ s Hcs) as [Hweek _].
  split; [done|]. subst s'. clear -Hcs.
  revert s. induction Hcs as [|c cs Hc Hcs IH]; intros s; [done|].
  simpl. rewrite IH.
  destruct c as [m r|m side argument|m o]; [done| |]; simpl.
  - apply preserves_public_write, submit_argument_preserves; by intros v [].
  - apply preserves_public_write, judge_all_preserves; by intros v [].
Qed.

Lemma get_round_info_counts_submitters_witness :
  let calls :=
    [(Scenario.at_time Scenario.alice Scenario.week10, "a", Scenario.text25);
     (Scenario.at_time Scenario.bob Scenario.week10, "b", Scenario.text30);
     (Scenario.at_time Scenario.alice Scenario.week10, "b", Scenario.text30)]
  in
  exists info,
    fst (get_round_info (run (map submit_call calls) Scenario.opened))
    = Ok info
    /\ info_player_count info
       = size (list_to_set [Scenario.alice; Scenario.bob; Scenario.alice]
                 : gset N).
Proof.
  intros calls.
  destruct (get_round_info_counts_submitters Scenario.opened calls)
    as (info & Hrun & Hcount & _).
  - apply run_roster_inv, init_roster_inv.
  - vm_compute. reflexivity.
  - vm_compute. reflexivity.
  - unfold calls, valid_side, valid_text.
    apply Forall_cons.
    split; [split; [left; reflexivity | simpl; lia]|].
    apply Forall_cons.
    split; [split; [right; reflexivity | simpl; lia]|].
    apply Forall_cons.
    split; [split; [right; reflexivity | simpl; lia]|].
    apply Forall_nil_2.
  - exists info. split; [by rewrite Hrun | exact Hcount].
Defined.

(** ** Across all calls *)

Lemma exec_keeps_host c s : host (snd (exec c s)) = host s.
Proof.
  destruct c as [msg r|msg side argument|msg oracle]; simpl;
    apply preserves_public_write.
  - apply open_round_preserves_host.
  - apply submit_argument_preserves; by intros v [].
  - apply judge_all_preserves; by intros v [].
Qed.

(** X14: no call ever changes the host: after any sequence of calls the
    host is still the account that deployed the contract. *)
Theorem host_is_the_deployer msg0 cs :
  host (run cs (init msg0)) = sender_address msg0.
Proof.
  change (sender_address msg0) with (host (init msg0)).
  generalize (init msg0). induction cs as [|c cs IH]; intros s; [done|].
  simpl. by rewrite IH, exec_keeps_host.
Qed.

(** X15: in a reachable state the two flags are never both set: an open
    round is not judged.  So [submit_argument] never fails with
    AlreadyJudged: its second [assert] cannot fire. *)
Theorem open_round_is_never_judged s :
  reachable s ->
  (round_open s = true -> judging_done s = false)
  /\ forall msg side argument,
       ~ fails_with (exec (SubmitArgument msg side argument)) s AlreadyJudged.
Proof.
  intros Hreach. apply reachable_state_inv in Hreach.
  destruct Hreach as (_ & _ & _ & _ & _ & Hflags).
  assert (round_open s = true -> judging_done s = false) as Himp.
  { intros Ho. by rewrite Ho in Hflags. }
  split; [done|].
  intros msg side argument. unfold fails_with. simpl.
  rewrite public_write_Raise.
  destruct (round_open s) eqn:Ho.
  - rewrite (submit_argument_open _ _ _ _ Ho (Himp eq_refl)).
    repeat case_match; done.
  - unfold submit_argument. tx_unfold. by rewrite Ho.
Qed.

Lemma open_round_is_never_judged_witness :
  ~ fails_with
      (exec (SubmitArgument (Scenario.at_time Scenario.carol Scenario.week10)
               "a" Scenario.text25)) Scenario.judged AlreadyJudged.
Proof.
  destruct (open_round_is_never_judged Scenario.judged) as [_ Hnever].
  - exists (Scenario.at_time Scenario.host_addr Scenario.week10),
      Scenario.round10. vm_compute. reflexivity.
  - apply Hnever.
Defined.

(** X16: in a reachable state every period score lies between 0 and 100
    and is part of the same participant's lifetime score; only roster
    members have a period score; and once the round is closed every
    roster member has one. *)
Theorem period_scores_are_bounded s p :
  reachable s ->
  0 <= period_score s p <= 100
  /\ period_score s p <= lifetime_score s p
  /\ (is_Some (scores s !! p) -> p ∈ player_list s)
  /\ (round_open s = false -> p ∈ player_list s ->
      is_Some (scores s !! p)).
Proof.
  intros Hreach. apply reachable_state_inv in Hreach.
  destruct Hreach as (_ & _ & Hsc & Hxp & Hclosed & _).
  pose proof (lifetime_score_nonneg s p Hxp) as Hnonneg.
  unfold period_score.
  destruct (scores s !! p) as [v|] eqn:E; simpl.
  - destruct (Hsc p v E) as (Hin & Hrange & Hle).
    repeat split; try done; try lia.
  - repeat split; try lia.
    + by intros [? ?].
    + intros Ho Hp. rewrite <- E. by apply Hclosed.
Qed.

Lemma period_scores_are_bounded_witness :
  0 <= period_score Scenario.judged_twice Scenario.alice <= 100
  /\ period_score Scenario.judged_twice Scenario.alice
     <= lifetime_score Scenario.judged_twice Scenario.alice.
Proof.
  destruct (period_scores_are_bounded Scenario.judged_twice Scenario.alice)
    as (Hrange & Hle & _).
  - exists (Scenario.at_time Scenario.host_addr Scenario.week10),
      (Scenario.round10 ++ Scenario.round11). reflexivity.
  - split; [exact Hrange | exact Hle].
Defined.

(** ** The period identifier *)

Lemma year_length y :
  Calendar.days_before_year (y + 1) - Calendar.days_before_year y
  = if Calendar.is_leap y then 366 else 365.
Proof.
  unfold Calendar.days_before_year, Calendar.is_leap.
  replace (y + 1 - 1) with y by lia.
  destruct (Z.eqb_spec (y mod 4) 0), (Z.eqb_spec (y mod 100) 0),
    (Z.eqb_spec (y mod 400) 0); simpl;
    Z.div_mod_to_equations; lia.
Qed.

(** The Monday of ISO week 1 is within three days of 1 January, and a
    Monday. *)
Lemma week1monday_bounds y :
  Calendar.days_before_year y - 2 <= Calendar.isoweek1monday y
    <= Calendar.days_before_year y + 4
  /\ (Calendar.isoweek1monday y + 6) mod 7 = 0.
Proof.
  unfold Calendar.isoweek1monday, Calendar.ymd2ord,
    Calendar.days_before_month. simpl.
  destruct (Z.ltb_spec 3 ((Calendar.days_before_year y + 0 + 1 + 6) mod 7));
    Z.div_mod_to_equations; lia.
Qed.

Lemma day_of_year_bounds y m d :
  1 <= m <= 12 -> 1 <= d <= Calendar.days_in_month y m ->
  1 <= Calendar.days_before_month y m + d
    <= if Calendar.is_leap y then 366 else 365.
Proof.
  intros Hm Hd.
  assert (m = 1 \/ m = 2 \/ m = 3 \/ m = 4 \/ m = 5 \/ m = 6 \/ m = 7
          \/ m = 8 \/ m = 9 \/ m = 10 \/ m = 11 \/ m = 12) as Hcases by lia.
  unfold Calendar.days_before_month.
  repeat destruct Hcases as [->|Hcases]; try subst m;
    match goal with
    | |- context [Z.to_nat ?e] =>
        let n := eval vm_compute in (Z.to_nat e) in
        change (Z.to_nat e) with n
    end;
    cbv -[Calendar.is_leap Z.add Z.le Z.lt] in *;
    destruct (Calendar.is_leap y); lia.
Qed.

(** For a date of year [y], the ISO year is [y] or a neighbour of it, the
    ISO week lies between 1 and 53 and the ISO weekday between 1 and 7. *)
Lemma isocalendar_range y m d :
  1 <= m <= 12 -> 1 <= d <= Calendar.days_in_month y m ->
  let '(iy, iw, id) := Calendar.isocalendar (y, m, d) in
  y - 1 <= iy <= y + 1 /\ 1 <= iw <= 53 /\ 1 <= id <= 7.
Proof.
  intros Hm Hd. unfold Calendar.isocalendar, Calendar.ymd2ord.
  pose proof (day_of_year_bounds y m d Hm Hd) as Hday.
  pose proof (year_length y) as Hlen.
  pose proof (year_length (y - 1)) as Hlen'.
  replace (y - 1 + 1) with y in Hlen' by lia.
  pose proof (week1monday_bounds y) as [Hw Hwm].
  pose proof (week1monday_bounds (y - 1)) as [Hw' Hwm'].
  pose proof (week1monday_bounds (y + 1)) as [Hw'' Hwm''].
  generalize dependent (Calendar.isoweek1monday y).
  generalize dependent (Calendar.isoweek1monday (y - 1)).
  generalize dependent (Calendar.isoweek1monday (y + 1)).
  generalize dependent (Calendar.days_before_month y m).
  generalize dependent (Calendar.days_before_year (y + 1)).
  generalize dependent (Calendar.days_before_year (y - 1)).
  generalize dependent (Calendar.days_before_year y).
  intros D Dp Hlen' Dn Hlen dbm Hday wn Hwn Hwmn wp Hwp Hwmp w Hw Hwm.
  destruct (Calendar.is_leap y), (Calendar.is_leap (y - 1));
    (destruct (Z.ltb_spec ((D + dbm + d - w) / 7) 0);
     [|destruct (Z.leb_spec 52 ((D + dbm + d - w) / 7)),
         (Z.leb_spec wn (D + dbm + d)); simpl]);
    Z.div_mod_to_equations; lia.
Qed.

Lemma length_02d k : 1 <= k <= 53 -> String.length (Py.str_of_int_02d k) = 2%nat.
Proof.
  intros Hk.
  assert (exists n, (n < 53)%nat /\ k = Z.of_nat n + 1) as (n & Hn & ->).
  { exists (Z.to_nat (k - 1)). lia. }
  do 53 (destruct n as [|n]; [by vm_compute|]). lia.
Qed.

(** X17: the period identifier [open_round] derives from a timestamp is
    an ISO year, the text ["-W"] and a two-digit ISO week between 01 and
    53; it exists exactly when the first ten characters of the timestamp
    spell a date that [datetime.date] accepts, and the ISO year is the
    calendar year or a neighbour of it. *)
Theorem week_of_format dt w :
  week_of dt = Ok w ->
  exists y m d iso_year iso_week,
    Py.int_of_str (Py.slice 0 4 (Py.slice 0 10 dt)) = Some y
    /\ Py.int_of_str (Py.slice 5 7 (Py.slice 0 10 dt)) = Some m
    /\ Py.int_of_str (Py.slice 8 10 (Py.slice 0 10 dt)) = Some d
    /\ Calendar.date y m d = Some (y, m, d)
    /\ w = String.append (Py.str_of_int iso_year)
             (String.append "-W" (Py.str_of_int_02d iso_week))
    /\ y - 1 <= iso_year <= y + 1 /\ 1 <= iso_week <= 53
    /\ String.length (Py.str_of_int_02d iso_week) = 2%nat.
Proof.
  unfold week_of. intros H.
  destruct (Py.int_of_str (Py.slice 0 4 _)) as [y|]; [|done].
  destruct (Py.int_of_str (Py.slice 5 7 _)) as [m|]; [|done].
  destruct (Py.int_of_str (Py.slice 8 10 _)) as [d|]; [|done].
  destruct (Calendar.date y m d) as [ymd|] eqn:Hdate; [|done].
  unfold Calendar.date in Hdate.
  destruct (_ && _) eqn:Hvalid in Hdate; [|done]. simplify_eq.
  repeat (apply andb_prop in Hvalid as [Hvalid ?]).
  pose proof (isocalendar_range y m d) as Hiso.
  destruct (Calendar.isocalendar (y, m, d)) as [[iy iw] id].
  destruct Hiso as (Hy & Hk & _); [lia | lia |].
  simplify_eq. exists y, m, d, iy, iw.
  repeat split; try done; try lia.
  - unfold Calendar.date.
    repeat (rewrite (proj2 (Z.leb_le _ _)) by lia). done.
  - by apply length_02d.
Qed.

Lemma week_of_format_witness :
  exists iso_year iso_week,
    "2025-W11" = String.append (Py.str_of_int iso_year)
                   (String.append "-W" (Py.str_of_int_02d iso_week))
    /\ 1 <= iso_week <= 53.
Proof.
  destruct (week_of_format Scenario.week11 "2025-W11")
    as (y & m & d & iy & iw & _ & _ & _ & _ & Hw & _ & Hk & _).
  - vm_compute. reflexivity.
  - exists iy, iw. split; [exact Hw | exact Hk].
Defined.

(** ** Before the first round *)

(** While no round is open, submitting and judging change nothing. *)
Lemma closed_round_unchanged cs : forall s,
  round_open s = false ->
  Forall (fun c => is_open_round c = false) cs ->
  run cs s = s.
Proof.
  induction cs as [|c cs IH]; intros s Hclosed Hcs; [done|].
  apply Forall_cons in Hcs as [Hc Hcs]. simpl.
  assert (snd (exec c s) = s) as ->; [|by apply IH].
  destruct c as [m r|m side argument|m o]; [done| |]; simpl;
    unfold public_write.
  - unfold submit_argument. tx_unfold. by rewrite Hclosed.
  - rewrite judge_all_unfold, Hclosed. simpl.
    by destruct (negb (N.eqb _ _)).
Qed.

(** X18: a freshly deployed contract waits for its host: until a call of
    [open_round] returns, no [submit_argument] and no [judge_all] changes
    anything, both leaderboards are empty, and [get_round_info] shows no
    week, no topic, a closed round and no players. *)
Theorem deployed_contract_waits_for_a_round
    (as_hex : Address -> string) msg0 cs :
  Forall (fun c => is_open_round c = false) cs ->
  let s := run cs (init msg0) in
  s = init msg0
  /\ get_leaderboard as_hex s = (Ok (mkLeaderboard "" "" []), s)
  /\ get_all_time_leaderboard as_hex s = (Ok [], s)
  /\ get_round_info s
     = (Ok (mkRoundInfo "" "" "" "" false false 0), s).
Proof.
  intros Hcs s. subst s.
  rewrite (closed_round_unchanged cs (init msg0)) by done.
  done.
Qed.

Lemma deployed_contract_waits_for_a_round_witness :
  run [SubmitArgument (Scenario.at_time Scenario.alice Scenario.week10)
         "a" Scenario.text25;
       JudgeAll (Scenario.at_time Scenario.host_addr Scenario.week10)
         Scenario.fair_oracle] Scenario.deployed
  = Scenario.deployed.
Proof.
  apply (deployed_contract_waits_for_a_round Scenario.as_hex
           (Scenario.at_time Scenario.host_addr Scenario.week10)
           [SubmitArgument (Scenario.at_time Scenario.alice Scenario.week10)
              "a" Scenario.text25;
            JudgeAll (Scenario.at_time Scenario.host_addr Scenario.week10)
              Scenario.fair_oracle]).
  repeat constructor.
Defined.
